(** * s3_utils: the bucket explorer commands [ls], [dump] and [download]

    A shallow embedding of [s3_downloader.py].  The three commands are
    written in a small state-and-exception monad over a [world] made of the
    process environment, the local file system and the console.  The bucket
    a command works on is an input: a name and the objects the service
    enumerates, in the order it enumerates them.

    Representation choices:
    - a Python [str] is a [string] holding the UTF-8 encoding of the text, so
      [bytes.decode('utf-8')] is a validity check that keeps the bytes;
    - [bytes] is [list byte];
    - the console is the list of the arguments of the [print] calls, oldest
      first (one entry is one printed line);
    - the file system resolves a path component by component (no symbolic
      links, no permissions, no quota). *)

From Stdlib Require Import ZArith NArith Ascii String Strings.Byte List Bool Lia.
From stdpp Require Import base option list gmap strings.

Local Open Scope string_scope.
Local Open Scope list_scope.

(** ** Python string primitives used by the script *)

Module Str.

Definition slash : ascii := "/"%char.

(** [s.rfind(c)]: index of the last occurrence of [c], [-1] when absent. *)
Fixpoint rfind (c : ascii) (s : string) : Z :=
  match s with
  | EmptyString => (-1)%Z
  | String a r =>
      let i := rfind c r in
      if (0 <=? i)%Z then (i + 1)%Z
      else if Ascii.eqb a c then 0%Z else (-1)%Z
  end.

(** [s[i:]] for a non-negative [i]. *)
Fixpoint slice_from (i : nat) (s : string) : string :=
  match i, s with
  | O, _ => s
  | S _, EmptyString => EmptyString
  | S i', String _ r => slice_from i' r
  end.

(** [s.startswith(p)]. *)
Fixpoint startswith (s p : string) {struct p} : bool :=
  match p, s with
  | EmptyString, _ => true
  | String _ _, EmptyString => false
  | String b p', String a s' => Ascii.eqb a b && startswith s' p'
  end.

(** [s.endswith(c)] for a one-character [c]. *)
Fixpoint endswith (s : string) (c : ascii) : bool :=
  match s with
  | EmptyString => false
  | String a EmptyString => Ascii.eqb a c
  | String _ r => endswith r c
  end.

(** [s.replace(old, new)] for a one-character [old]. *)
Fixpoint replace (old : ascii) (new : string) (s : string) : string :=
  match s with
  | EmptyString => EmptyString
  | String a r =>
      if Ascii.eqb a old then new +:+ replace old new r
      else String a (replace old new r)
  end.

(** [s.split(c)]: the pieces between the occurrences of [c]. *)
Fixpoint split (c : ascii) (s : string) : list string :=
  match s with
  | EmptyString => [EmptyString]
  | String a r =>
      if Ascii.eqb a c then EmptyString :: split c r
      else match split c r with
           | h :: t => String a h :: t
           | [] => [String a EmptyString]
           end
  end.

(** [c in s]. *)
Fixpoint contains (c : ascii) (s : string) : bool :=
  match s with
  | EmptyString => false
  | String a r => Ascii.eqb a c || contains c r
  end.

End Str.

(** ** [os.path] (posixpath) *)

Module OsPath.

(** [os.path.basename(p)]: [i = p.rfind('/') + 1; return p[i:]]. *)
Definition basename (p : string) : string :=
  let i := (Str.rfind Str.slash p + 1)%Z in
  Str.slice_from (Z.to_nat i) p.

(** [os.path.join(a, b)] with one component [b]. *)
Definition join (a b : string) : string :=
  if Str.startswith b "/" then b
  else if (String.eqb a "" || Str.endswith a Str.slash)%bool then a +:+ b
  else a +:+ "/" +:+ b.

End OsPath.

(** ** [bytes.decode('utf-8')] *)

Module Utf8.

Definition between (lo hi b : N) : bool := ((lo <=? b) && (b <=? hi))%N.

(** A continuation byte, [0x80..0xBF]. *)
Definition cont (b : N) : bool := between 128 191 b.

(** Second byte of a three-byte sequence: no overlong form, no surrogate. *)
Definition second3 (b0 b1 : N) : bool :=
  if (b0 =? 224)%N then between 160 191 b1
  else if (b0 =? 237)%N then between 128 159 b1
  else cont b1.

(** Second byte of a four-byte sequence: no overlong form, at most U+10FFFF. *)
Definition second4 (b0 b1 : N) : bool :=
  if (b0 =? 240)%N then between 144 191 b1
  else if (b0 =? 244)%N then between 128 143 b1
  else cont b1.

Fixpoint valid (l : list N) : bool :=
  match l with
  | [] => true
  | b0 :: r0 =>
      if (b0 <? 128)%N then valid r0
      else if between 194 223 b0 then
        match r0 with
        | b1 :: r1 => cont b1 && valid r1
        | _ => false
        end
      else if between 224 239 b0 then
        match r0 with
        | b1 :: b2 :: r2 => second3 b0 b1 && cont b2 && valid r2
        | _ => false
        end
      else if between 240 244 b0 then
        match r0 with
        | b1 :: b2 :: b3 :: r3 => second4 b0 b1 && cont b2 && cont b3 && valid r3
        | _ => false
        end
      else false
  end.

(** The text of a payload, when the payload is well-formed UTF-8. *)
Definition decode (payload : list byte) : option string :=
  if valid (map Byte.to_N payload) then Some (string_of_list_byte payload)
  else None.

End Utf8.

(** ** JSON values as Python objects *)

#[local] Set Warnings "-register-all,-clear-no-such-hyp".

Inductive json : Type :=
| JNone
| JBool (b : bool)
| JInt (z : Z)
| JFloat (literal : string)
| JStr (s : string)
| JList (items : list json)
| JDict (entries : list (string * json)).

(** A Python [dict] with string keys keeps its entries in insertion order. *)
Module Dict.

Definition t := list (string * json).

(** [d.get(k)], [None] when [k] is absent. *)
Fixpoint get (d : t) (k : string) : option json :=
  match d with
  | [] => None
  | (k', v) :: r => if String.eqb k' k then Some v else get r k
  end.

(** [d[k] = v]: overwrite in place, or append a new entry. *)
Fixpoint set (d : t) (k : string) (v : json) : t :=
  match d with
  | [] => [(k, v)]
  | (k', v') :: r =>
      if String.eqb k' k then (k', v) :: r else (k', v') :: set r k v
  end.

Definition keys (d : t) : list string := map fst d.

End Dict.

(** ** Exceptions *)

Inductive exn : Type :=
| FileNotFoundError
| NotADirectoryError
| IsADirectoryError
| FileExistsError
| ClientError
| RetriesExceededError
| UnicodeDecodeError
| JSONDecodeError
| TypeError
| AttributeError.

(** The subclasses of [OSError] raised by the file system. *)
Definition is_os_error (e : exn) : bool :=
  match e with
  | FileNotFoundError | NotADirectoryError | IsADirectoryError
  | FileExistsError => true
  | _ => false
  end.

(** ** The local file system

    The part of POSIX the script relies on, as the calls it makes behave on
    directories and regular files: a path is resolved one component at a
    time, from the root or from the current directory. *)

Record filesystem : Type := mk_fs {
  cwd : list string;
  dirs : gset (list string);
  files : gmap (list string) (list byte)
}.

Module Fs.

(** A location is the list of names from the root. *)
Definition loc := list string.

Definition is_dir (f : filesystem) (l : loc) : bool :=
  bool_decide (l = [] ∨ l ∈ dirs f).

Definition is_file (f : filesystem) (l : loc) : bool :=
  bool_decide (is_Some (files f !! l)).

Definition origin (f : filesystem) (p : string) : loc :=
  if Str.startswith p "/" then [] else cwd f.

Definition stays (c : string) : bool :=
  (String.eqb c "" || String.eqb c ".")%bool.

(** One step of path resolution from the directory [cur]. *)
Definition enter (f : filesystem) (cur : loc) (c : string) : exn + loc :=
  if stays c then inr cur
  else if String.eqb c ".." then inr (removelast cur)
  else if is_dir f (cur ++ [c]) then inr (cur ++ [c])
  else if is_file f (cur ++ [c]) then inl NotADirectoryError
  else inl FileNotFoundError.

Fixpoint walk (f : filesystem) (cur : loc) (cs : list string) : exn + loc :=
  match cs with
  | [] => inr cur
  | c :: r =>
      match enter f cur c with
      | inl e => inl e
      | inr next => walk f next r
      end
  end.

(** The directory a path denotes when file names are joined to it
    (the empty path is the current directory, as for [os.path.join]). *)
Definition resolve_dir (f : filesystem) (p : string) : exn + loc :=
  walk f (origin f p) (Str.split Str.slash p).

(** A name that can be the last component of a regular file's path. *)
Definition file_name (n : string) : bool :=
  negb (stays n || String.eqb n ".." || Str.contains Str.slash n).

(** The components of a path without the empty ones at its end, which
    trailing slashes leave. *)
Fixpoint strip_trailing (cs : list string) : list string :=
  match cs with
  | [] => []
  | c :: r =>
      match strip_trailing r with
      | [] => if String.eqb c "" then [] else [c]
      | r' => c :: r'
      end
  end.

(** [open(p, 'wb')]: the file is created, or truncated to zero length.  A
    path that ends with a slash names no regular file: once the directories
    before its last name are found, creating it is refused. *)
Definition open_wb (f : filesystem) (p : string) : exn + (loc * filesystem) :=
  if String.eqb p "" then inl FileNotFoundError
  else
    let cs := Str.split Str.slash p in
    if String.eqb (List.last cs "") "" then
      match walk f (origin f p) (removelast (strip_trailing cs)) with
      | inl e => inl e
      | inr _ => inl IsADirectoryError
      end
    else
      match walk f (origin f p) (removelast cs) with
      | inl e => inl e
      | inr d =>
          let n := List.last cs "" in
          if negb (file_name n) then inl IsADirectoryError
          else if is_dir f (d ++ [n]) then inl IsADirectoryError
          else inr (d ++ [n],
                    mk_fs (cwd f) (dirs f) (<[d ++ [n] := []]> (files f)))
      end.

(** [file.write(data)] on an open handle: the data goes after what the
    handle wrote so far. *)
Definition write (f : filesystem) (h : loc) (data : list byte) : filesystem :=
  mk_fs (cwd f) (dirs f)
        (<[h := default [] (files f !! h) ++ data]> (files f)).

(** One step of [os.makedirs(_, exist_ok=True)]; [last] says that no name
    follows.  A regular file in the way is an error: [mkdir] finds it where
    the directory should be ([FileExistsError]) or is asked to go through it
    ([NotADirectoryError]). *)
Definition make (f : filesystem) (cur : loc) (c : string) (last : bool)
  : exn + (loc * filesystem) :=
  if stays c then inr (cur, f)
  else if String.eqb c ".." then inr (removelast cur, f)
  else if is_dir f (cur ++ [c]) then inr (cur ++ [c], f)
  else if is_file f (cur ++ [c]) then
    inl (if last then FileExistsError else NotADirectoryError)
  else inr (cur ++ [c], mk_fs (cwd f) ({[cur ++ [c]]} ∪ dirs f) (files f)).

(** The directories are made from the first to the last; when one cannot be
    made, those made before it stay. *)
Fixpoint make_all (f : filesystem) (cur : loc) (cs : list string)
  : exn * filesystem + loc * filesystem :=
  match cs with
  | [] => inr (cur, f)
  | c :: r =>
      match make f cur c (forallb (λ x, String.eqb x "") r) with
      | inl e => inl (e, f)
      | inr (next, f') => make_all f' next r
      end
  end.

(** [os.makedirs(name=p, exist_ok=True)]: the file system it leaves, with the
    exception when it fails. *)
Definition makedirs (f : filesystem) (p : string)
  : exn * filesystem + filesystem :=
  if String.eqb p "" then inl (FileNotFoundError, f)
  else
    match make_all f (origin f p) (Str.split Str.slash p) with
    | inl failed => inl failed
    | inr (_, f') => inr f'
    end.

End Fs.

(** ** The object store *)

(** What the service does when the payload of an object is requested:
    deliver it, or break the connection after [delivered] bytes. *)
Inductive link : Type :=
| Healthy
| Broken (delivered : nat).

Record s3_object : Type := mk_object {
  key : string;
  body : list byte;
  transfer : link
}.

Record bucket : Type := mk_bucket {
  name : string;
  objects : list s3_object
}.

(** [s3_bucket.objects.filter(Prefix=prefix)]: the objects whose key starts
    with [prefix], in the order of the enumeration. *)
Definition objects_filter (b : bucket) (prefix : string) : list s3_object :=
  List.filter (fun o => Str.startswith (key o) prefix) (objects b).

(** The object the service serves for a key. *)
Definition stored (b : bucket) (k : string) : option s3_object :=
  List.find (fun o => String.eqb (key o) k) (objects b).

(** ** The world and the monad of the commands *)

(** One [print] call: a text, or the [str()] of a Python value. *)
Inductive printed : Type :=
| Text (s : string)
| Value (v : json).

Record world : Type := mk_world {
  environ : gmap string string;
  fs : filesystem;
  stdout : list printed
}.

(** A computation returns a value or raises, and leaves a world behind in
    both cases: nothing is rolled back when an exception escapes. *)
Definition M (A : Type) : Type := world → (exn + A) * world.

#[global] Instance M_ret : MRet M := λ A (a : A) w, (inr a, w).

#[global] Instance M_bind : MBind M := λ A B (k : A → M B) (c : M A) w,
  match c w with
  | (inl e, w') => (inl e, w')
  | (inr a, w') => k a w'
  end.

Definition raise {A : Type} (e : exn) : M A := λ w, (inl e, w).

(** Run a file-system operation that returns a value. *)
Definition fs_call {A : Type} (op : filesystem → exn + (A * filesystem)) : M A :=
  λ w, match op (fs w) with
       | inl e => (inl e, w)
       | inr (a, f') => (inr a, mk_world (environ w) f' (stdout w))
       end.

(** [for x in xs: s = body(x, s)] with the loop-carried variables [s]. *)
Fixpoint for_each {A S : Type} (xs : list A) (body : A → S → M S) (s : S)
  : M S :=
  match xs with
  | [] => mret s
  | x :: r => s' ← body x s; for_each r body s'
  end.

Definition print (x : printed) : M unit :=
  λ w, (inr tt, mk_world (environ w) (fs w) (stdout w ++ [x])).

(** [os.environ[k] = v]. *)
Definition setenv (k v : string) : M unit :=
  λ w, (inr tt, mk_world (<[k := v]> (environ w)) (fs w) (stdout w)).

(** [open(path, 'wb')]. *)
Definition open_wb (path : string) : M Fs.loc :=
  fs_call (λ f, Fs.open_wb f path).

(** [file.write(data)]. *)
Definition write (h : Fs.loc) (data : list byte) : M unit :=
  fs_call (λ f, inr (tt, Fs.write f h data)).

(** [os.makedirs(name=path, exist_ok=True)]. *)
Definition makedirs (path : string) : M unit :=
  λ w, match Fs.makedirs (fs w) path with
       | inl (e, f') => (inl e, mk_world (environ w) f' (stdout w))
       | inr f' => (inr tt, mk_world (environ w) f' (stdout w))
       end.

(** [s3_object.get().get('Body').read()]. *)
Definition read (o : s3_object) : M (list byte) :=
  match transfer o with
  | Healthy => mret (body o)
  | Broken _ => raise ClientError
  end.

(** The size of the pieces in which the transfer manager reads a payload
    and writes it to the file ([io_chunksize] of its configuration), and the
    size from which it asks for a payload in several requests
    ([multipart_threshold]). *)
Definition io_chunksize : N := 262144.

(** What is in the file when a transfer breaks after [n] bytes: the whole
    pieces that arrived.  The piece that breaks is not written. *)
Definition written_before (n : nat) (payload : list byte) : list byte :=
  take (N.to_nat (N.of_nat n / io_chunksize * io_chunksize)) payload.

(** [s3_bucket.download_fileobj(k, file)]: the payload is asked for by key
    and written to the open file piece by piece.  When the stream breaks the
    transfer manager tries again from the start, with the same end, and gives
    up with [RetriesExceededError]; what it wrote stays in the file.  This is
    the transfer in one request, which the manager uses for a payload below
    [multipart_threshold]. *)
Definition download_fileobj (b : bucket) (k : string) (file : Fs.loc) : M unit :=
  match stored b k with
  | None => raise ClientError
  | Some o =>
      match transfer o with
      | Healthy => write file (body o)
      | Broken n =>
          write file (written_before n (body o));; raise RetriesExceededError
      end
  end.

(** [content.decode('utf-8')]. *)
Definition decode (payload : list byte) : M string :=
  match Utf8.decode payload with
  | Some s => mret s
  | None => raise UnicodeDecodeError
  end.

(** ** The script *)

Module Color.
Definition ESC : string := String "027"%char EmptyString.
Definition END : string := ESC +:+ "[0m".
Definition TITLE : string := ESC +:+ "[6;30;43m".
Definition FILE : string := ESC +:+ "[0;33;40m".
End Color.

Definition set_profile (profile : string) : M unit :=
  setenv "AWS_PROFILE" profile.

Definition ls (b : bucket) (prefix profile : string) : M unit :=
  set_profile profile;;
  print (Text (Color.TITLE +:+ "Listing bucket `" +:+ name b +:+ "`" +:+ Color.END));;
  for_each (objects_filter b prefix)
    (λ s3_object _, print (Text (Color.FILE +:+ key s3_object +:+ Color.END))) tt.

(** Truth value of the [keys] argument: [None] and [[]] are false. *)
Definition truthy (keys : option (list string)) : bool :=
  match keys with
  | Some (_ :: _) => true
  | _ => false
  end.

(** [row.get(key)]: only a [dict] has the method. *)
Definition row_get (row : json) (k : string) : exn + json :=
  match row with
  | JDict d => inr (default JNone (Dict.get d k))
  | _ => inl AttributeError
  end.

(** [{key: row.get(key) for key in keys}]. *)
Fixpoint comprehension (row : json) (keys : list string) (acc : Dict.t)
  : exn + Dict.t :=
  match keys with
  | [] => inr acc
  | k :: r =>
      match row_get row k with
      | inl e => inl e
      | inr v => comprehension row r (Dict.set acc k v)
      end
  end.

(** [{...} if keys else row]. *)
Definition display_dict (keys : option (list string)) (row : json) : M json :=
  if truthy keys then
    match comprehension row (default [] keys) [] with
    | inl e => raise e
    | inr d => mret (JDict d)
    end
  else mret row.

(** The characters of a text: a character is a byte that is no continuation
    byte, with the continuation bytes that follow it. *)
Definition continues (s : string) : bool :=
  match s with
  | String c _ => Utf8.cont (N_of_ascii c)
  | EmptyString => false
  end.

Fixpoint code_points (s : string) : list string :=
  match s with
  | EmptyString => []
  | String c r =>
      match code_points r with
      | g :: gs =>
          if continues r then String c g :: gs
          else String c EmptyString :: g :: gs
      | [] => [String c EmptyString]
      end
  end.

Definition chars (s : string) : list json := map JStr (code_points s).

(** [for row in json_content]: a list yields its items, a dict its keys, a
    string its characters; the other values are not iterable. *)
Definition rows_of (json_content : json) : M (list json) :=
  match json_content with
  | JList items => mret items
  | JDict d => mret (map JStr (Dict.keys d))
  | JStr s => mret (chars s)
  | _ => raise TypeError
  end.

Section Dump.

(** [json.loads], of the standard library: [None] stands for
    [JSONDecodeError]. *)
Variable json_loads : string → option json.

Definition loads (content : string) : M json :=
  match json_loads content with
  | Some v => mret v
  | None => raise JSONDecodeError
  end.

(** The body of the inner loop of [dump]. *)
Definition dump_row (keys : option (list string)) (row : json) (_ : unit)
  : M unit :=
  d ← display_dict keys row; print (Value d).

(** The body of the loop of [dump]. *)
Definition dump_object (keys : option (list string)) (text : bool)
    (s3_object : s3_object) (_ : unit) : M unit :=
  print (Text (Color.FILE +:+ key s3_object +:+ Color.END));;
  payload ← read s3_object;
  content ← decode payload;
  if negb text then
    json_content ← loads content;
    rows ← rows_of json_content;
    for_each rows (dump_row keys) tt
  else print (Text content).

Definition dump (b : bucket) (prefix profile : string)
    (keys : option (list string)) (text : bool) : M unit :=
  set_profile profile;;
  print (Text (Color.TITLE +:+ "Showing content in bucket `" +:+ name b
               +:+ "` with prefix `" +:+ prefix +:+ "`" +:+ Color.END));;
  for_each (objects_filter b prefix) (dump_object keys text) tt.

End Dump.

Definition newline : byte := x0a.

(** The name of the merged file:
    [(s3_bucket.name + '__' + prefix + '.json').replace('/', '__')]. *)
Definition merged_file_name (b : bucket) (prefix : string) : string :=
  Str.replace Str.slash "__" (name b +:+ "__" +:+ prefix +:+ ".json").

(** The body of the loop of [download]; the loop carries [merged_bytes]. *)
Definition download_object (b : bucket) (target : string) (raw merge : bool)
    (s3_object : s3_object) (merged_bytes : list byte) : M (list byte) :=
  let file_name := OsPath.basename (key s3_object) in
  let path := OsPath.join target file_name in
  if negb raw then
    file ← open_wb path;
    download_fileobj b (key s3_object) file;;
    print (Text (Color.FILE +:+ "Downloaded `" +:+ key s3_object +:+ "` to `"
                 +:+ path +:+ "`" +:+ Color.END));;
    mret merged_bytes
  else
    bytes_content ← read s3_object;
    if merge then mret (merged_bytes ++ bytes_content ++ [newline])
    else
      file ← open_wb path;
      write file bytes_content;;
      print (Text (Color.FILE +:+ "Downloaded `" +:+ key s3_object +:+ "` to `"
                   +:+ path +:+ "`" +:+ Color.END));;
      mret merged_bytes.

(** The statements after the loop: [if merge: ...]. *)
Definition write_merged (b : bucket) (prefix target : string) (merge : bool)
    (merged_bytes : list byte) : M unit :=
  if merge then
    let file_name := merged_file_name b prefix in
    let path := OsPath.join target file_name in
    file ← open_wb path;
    write file merged_bytes;;
    print (Text (Color.FILE +:+ "Downloaded `" +:+ name b +:+ "/" +:+ prefix
                 +:+ "` to `" +:+ path +:+ "`" +:+ Color.END))
  else mret tt.

Definition download (b : bucket) (prefix profile target : string)
    (new_dir raw merge : bool) : M unit :=
  let merged_bytes := [] in
  set_profile profile;;
  print (Text (Color.TITLE +:+ "Downloading content in bucket `" +:+ name b
               +:+ "` with prefix `" +:+ prefix +:+ "`" +:+ Color.END));;
  (if new_dir then makedirs target else mret tt);;
  merged_bytes ← for_each (objects_filter b prefix)
                   (download_object b target raw merge) merged_bytes;
  write_merged b prefix target merge merged_bytes.

(** ** Vocabulary of the statements *)

(** The lines the commands print. *)
Definition ls_banner (b : bucket) : printed :=
  Text (Color.TITLE +:+ "Listing bucket `" +:+ name b +:+ "`" +:+ Color.END).

Definition key_line (o : s3_object) : printed :=
  Text (Color.FILE +:+ key o +:+ Color.END).

Definition dump_banner (b : bucket) (prefix : string) : printed :=
  Text (Color.TITLE +:+ "Showing content in bucket `" +:+ name b
        +:+ "` with prefix `" +:+ prefix +:+ "`" +:+ Color.END).

Definition download_banner (b : bucket) (prefix : string) : printed :=
  Text (Color.TITLE +:+ "Downloading content in bucket `" +:+ name b
        +:+ "` with prefix `" +:+ prefix +:+ "`" +:+ Color.END).

(** The local path of one object: the target joined with the last segment
    of the key. *)
Definition local_path (target : string) (o : s3_object) : string :=
  OsPath.join target (OsPath.basename (key o)).

Definition downloaded_line (target : string) (o : s3_object) : printed :=
  Text (Color.FILE +:+ "Downloaded `" +:+ key o +:+ "` to `"
        +:+ local_path target o +:+ "`" +:+ Color.END).

Definition merged_path (b : bucket) (prefix target : string) : string :=
  OsPath.join target (merged_file_name b prefix).

Definition merged_line (b : bucket) (prefix target : string) : printed :=
  Text (Color.FILE +:+ "Downloaded `" +:+ name b +:+ "/" +:+ prefix
        +:+ "` to `" +:+ merged_path b prefix target +:+ "`" +:+ Color.END).

(** Where the file of an object lands, [d] being the target directory. *)
Definition dest (d : Fs.loc) (o : s3_object) : Fs.loc :=
  d ++ [OsPath.basename (key o)].

(** The files after the objects of [l] were saved one after the other. *)
Definition saved (d : Fs.loc) (l : list s3_object)
    (m : gmap (list string) (list byte)) : gmap (list string) (list byte) :=
  foldl (λ m o, <[dest d o := body o]> m) m l.

(** The payloads of [l], each followed by one newline byte. *)
Definition merged_payload (l : list s3_object) : list byte :=
  concat (map (λ o, body o ++ [newline]) l).

(** The file system after the directory step of [download]. *)
Definition prepared (new_dir : bool) (target : string) (f : filesystem)
  : exn * filesystem + filesystem :=
  if new_dir then Fs.makedirs f target else inr f.

(** A regular file can be created or overwritten at [l]. *)
Definition writable (f : filesystem) (l : Fs.loc) : Prop :=
  Fs.file_name (List.last l "") = true ∧ Fs.is_dir f l = false.

(** In a bucket a key names one object. *)
Definition unique_keys (b : bucket) : Prop := NoDup (map key (objects b)).

(** The value of a record for a requested key: [None] for a missing key. *)
Definition requested (d : Dict.t) (k : string) : json :=
  default JNone (Dict.get d k).

(** The requested keys entered one after the other into [acc]. *)
Definition project (d : Dict.t) (ks : list string) (acc : Dict.t) : Dict.t :=
  foldl (λ acc k, Dict.set acc k (requested d k)) acc ks.

(** The view of a record that [dump] prints for the requested keys. *)
Definition record_view (keys : option (list string)) (d : Dict.t) : Dict.t :=
  if truthy keys then project d (default [] keys) [] else d.

(** The text of the payload of an object (empty when it has none). *)
Definition text_of (o : s3_object) : string :=
  default EmptyString (Utf8.decode (body o)).

(** What stops [dump] at an object, if anything: the payload does not
    arrive, or it is not UTF-8. *)
Definition read_error (o : s3_object) : option exn :=
  match transfer o with
  | Broken _ => Some ClientError
  | Healthy =>
      match Utf8.decode (body o) with
      | Some _ => None
      | None => Some UnicodeDecodeError
      end
  end.

(** The payload of an object arrives and is text. *)
Definition is_text (o : s3_object) : Prop := read_error o = None.

(** The lines of [dump] for a text object: the key, then the text. *)
Definition text_lines (o : s3_object) : list printed :=
  [key_line o; Text (text_of o)].

(** The lines of [dump] for an object that holds [rows]: the key, then one
    line per record. *)
Definition record_lines (keys : option (list string)) (o : s3_object)
    (rows : list Dict.t) : list printed :=
  key_line o :: map (λ d, Value (JDict (record_view keys d))) rows.

(** The payload of an object arrives and parses as the list of records
    [rows]. *)
Definition holds_records (json_loads : string → option json)
    (o : s3_object) (rows : list Dict.t) : Prop :=
  is_text o ∧ json_loads (text_of o) = Some (JList (map JDict rows)).

(** ** Sample data *)

Module Sample.

Definition payload (s : string) : list byte := list_byte_of_string s.

(** A home directory with an [out] directory in it. *)
Definition home : filesystem :=
  mk_fs ["home"] {[ ["home"]; ["home"; "out"] ]} ∅.

Definition start : world := mk_world ∅ home [].

Definition logs : bucket :=
  mk_bucket "bkt"
    [ mk_object "logs/a" (payload "AAA") Healthy;
      mk_object "logs/b" (payload "BBB") Healthy;
      mk_object "old/a" (payload "CCC") Healthy ].

(** The second object cannot be fetched completely. *)
Definition flaky : bucket :=
  mk_bucket "bkt"
    [ mk_object "logs/a" (payload "AAA") Healthy;
      mk_object "logs/b" (payload "BBB") (Broken 1) ].

(** The same home, where an earlier run left a file [out/b]. *)
Definition used_home : filesystem :=
  mk_fs ["home"] {[ ["home"]; ["home"; "out"] ]}
    {[ ["home"; "out"; "b"] := payload "old bytes" ]}.

Definition restart : world := mk_world ∅ used_home [].

Definition dq : string := String "034"%char EmptyString.

(** The text [[{"a":1,"b":2,"c":3}]]. *)
Definition records_text : string :=
  "[{" +:+ dq +:+ "a" +:+ dq +:+ ":1," +:+ dq +:+ "b" +:+ dq +:+ ":2,"
  +:+ dq +:+ "c" +:+ dq +:+ ":3}]".

Definition records : bucket :=
  mk_bucket "bkt" [ mk_object "r.json" (payload records_text) Healthy ].

(** A parser that knows this one text. *)
Definition parse (s : string) : option json :=
  if String.eqb s records_text
  then Some (JList [JDict [("a", JInt 1); ("b", JInt 2); ("c", JInt 3)]])
  else None.

End Sample.

(** ** Vocabulary of the further properties *)

(** Two payloads are equal or not. *)
#[local] Instance byte_eq_decision : EqDecision byte := Byte.byte_eq_dec.

(** [f'] is [f] where regular files directly in the directory [d] were
    created or overwritten: no directory changed, no file went away, and a
    file elsewhere is what it was. *)
Definition touched_under (d : Fs.loc) (f f' : filesystem) : Prop :=
  cwd f' = cwd f ∧ dirs f' = dirs f
  ∧ (∀ l, is_Some (files f !! l) → is_Some (files f' !! l))
  ∧ (∀ l, files f' !! l ≠ files f !! l →
          ∃ n, l = d ++ [n] ∧ Fs.file_name n = true).

(** What the loop of [download] and the statements after it may do to a
    world, [t] being the target: print, and write files directly in the
    target directory; when the target is no directory, only print. *)
Definition reach (t : string) (w w' : world) : Prop :=
  environ w' = environ w
  ∧ (∃ more, stdout w' = stdout w ++ more)
  ∧ match Fs.resolve_dir (fs w) t with
    | inr d => touched_under d (fs w) (fs w')
    | inl _ => fs w' = fs w
    end.

(** Nothing happened but printing. *)
Definition console_only (w w' : world) : Prop :=
  environ w' = environ w ∧ fs w' = fs w
  ∧ ∃ more, stdout w' = stdout w ++ more.

(** The values a [for] statement can iterate over. *)
Definition iterable (v : json) : bool :=
  match v with
  | JList _ | JDict _ | JStr _ => true
  | _ => false
  end.

(** What the iteration yields: the items of a list, the keys of a dict, the
    characters of a string. *)
Definition items_of (v : json) : list json :=
  match v with
  | JList items => items
  | JDict d => map JStr (Dict.keys d)
  | JStr s => chars s
  | _ => []
  end.

Definition is_dict (v : json) : bool :=
  match v with
  | JDict _ => true
  | _ => false
  end.

(** The payload of an object arrives, is text, and parses to [v]. *)
Definition parses_to (json_loads : string → option json) (o : s3_object)
    (v : json) : Prop :=
  is_text o ∧ json_loads (text_of o) = Some v.

(** What stops [dump] without [text] at a text object before any of its rows
    is printed, if anything: the text does not parse, or the parsed value is
    not iterable. *)
Definition json_error (json_loads : string → option json) (o : s3_object)
  : option exn :=
  match json_loads (text_of o) with
  | None => Some JSONDecodeError
  | Some v => if iterable v then None else Some TypeError
  end.

(** The lines of [dump] for an object whose payload parses to [v], when no
    keys are requested: the key, then one line per item. *)
Definition item_lines (o : s3_object) (v : json) : list printed :=
  key_line o :: map Value (items_of v).

(** The conditions under which nothing stops a run of [download]: the
    directory step succeeds and leaves [f0], the target resolves to [d], the
    payloads arrive, and the files to write can be written. *)
Definition ready (b : bucket) (prefix target : string)
    (new_dir raw merge : bool) (w : world) (f0 : filesystem) (d : Fs.loc)
  : Prop :=
  prepared new_dir target (fs w) = inr f0
  ∧ Fs.resolve_dir f0 target = inr d
  ∧ unique_keys b
  ∧ Forall (λ o, transfer o = Healthy) (objects_filter b prefix)
  ∧ (raw = false ∨ merge = false →
     Forall (λ o, writable f0 (dest d o)) (objects_filter b prefix))
  ∧ (merge = true → Fs.is_dir f0 (d ++ [merged_file_name b prefix]) = false).

(** The files such a run leaves, [m] being the files before it. *)
Definition outcome_files (b : bucket) (prefix : string) (raw merge : bool)
    (d : Fs.loc) (m : gmap (list string) (list byte))
  : gmap (list string) (list byte) :=
  if raw && merge then
    <[d ++ [merged_file_name b prefix] :=
        merged_payload (objects_filter b prefix)]> m
  else if merge then
    <[d ++ [merged_file_name b prefix] := []]>
      (saved d (objects_filter b prefix) m)
  else saved d (objects_filter b prefix) m.

(** The lines it prints after the banner. *)
Definition outcome_lines (b : bucket) (prefix target : string)
    (raw merge : bool) : list printed :=
  (if raw && merge then []
   else map (downloaded_line target) (objects_filter b prefix))
  ++ (if merge then [merged_line b prefix target] else []).

(** One character of a text, encoded: a byte that is no continuation byte,
    then continuation bytes only. *)
Definition one_code_point (c : string) : bool :=
  match c with
  | EmptyString => false
  | String a r =>
      negb (Utf8.cont (N_of_ascii a))
      && forallb (λ x, Utf8.cont (N_of_ascii x)) (list_ascii_of_string r)
  end.

(** The exception of [open] on the path of an object whose key ends with a
    slash: the path is the target with a trailing slash, or the empty path
    when the target is empty. *)
Definition marker_error (target : string) : exn :=
  if String.eqb target "" then FileNotFoundError else IsADirectoryError.

(** ** More sample data *)

Module Cases.

(** A bucket with the placeholder of a folder between two objects. *)
Definition with_folder : bucket :=
  mk_bucket "bkt"
    [ mk_object "logs/a" (Sample.payload "AAA") Healthy;
      mk_object "logs/" [] Healthy;
      mk_object "logs/b" (Sample.payload "BBB") Healthy ].

(** Three texts and a parser that knows them: a list of mixed items, a
    number, and a list whose second row is no record. *)
Definition mixed_text : string := "[1, null]".
Definition number_text : string := "42".
Definition ragged_text : string := "[{}, 7]".

Definition parse (s : string) : option json :=
  if String.eqb s mixed_text then Some (JList [JInt 1; JNone])
  else if String.eqb s number_text then Some (JInt 42)
  else if String.eqb s ragged_text then Some (JList [JDict []; JInt 7])
  else None.

Definition mixed : bucket :=
  mk_bucket "bkt" [ mk_object "m.json" (Sample.payload mixed_text) Healthy ].

Definition number : bucket :=
  mk_bucket "bkt" [ mk_object "n.json" (Sample.payload number_text) Healthy ].

Definition ragged : bucket :=
  mk_bucket "bkt" [ mk_object "g.json" (Sample.payload ragged_text) Healthy ].

(** The text of a JSON string of two characters, the first of which takes
    two bytes (U+00E9, then [a]), and a parser that knows it. *)
Definition e_acute : string := String "195"%char (String "169"%char EmptyString).
Definition word_text : string := Sample.dq +:+ e_acute +:+ "a" +:+ Sample.dq.

Definition parse_word (s : string) : option json :=
  if String.eqb s word_text then Some (JStr (e_acute +:+ "a")) else None.

Definition word : bucket :=
  mk_bucket "bkt" [ mk_object "w.json" (Sample.payload word_text) Healthy ].

End Cases.

(** ** Facts about the string primitives *)

Lemma rfind_contains c s :
  (Str.rfind c s = (-1)%Z ∧ Str.contains c s = false)
  ∨ ((0 ≤ Str.rfind c s)%Z ∧ Str.contains c s = true).
Proof.
  induction s as [|a r IH]; simpl; [by left|].
  destruct IH as [[-> ->]|[Hpos ->]].
  - simpl. rewrite orb_false_r. destruct (Ascii.eqb a c); [right|left]; done.
  - right. rewrite orb_true_r.
    destruct (Z.leb_spec 0 (Str.rfind c r)); [split; [lia|done]|lia].
Qed.

(** [basename] by recursion on the path: skip up to the last slash. *)
Lemma basename_cons a r :
  OsPath.basename (String a r) =
    if Str.contains Str.slash r then OsPath.basename r
    else if Ascii.eqb a Str.slash then r else String a r.
Proof.
  unfold OsPath.basename. simpl.
  destruct (rfind_contains Str.slash r) as [[-> ->]|[Hpos ->]].
  - simpl. by destruct (Ascii.eqb a Str.slash).
  - destruct (Z.leb_spec 0 (Str.rfind Str.slash r)); [|lia].
    replace (Z.to_nat (Str.rfind Str.slash r + 1 + 1))
      with (S (Z.to_nat (Str.rfind Str.slash r + 1))) by lia.
    done.
Qed.

Lemma basename_no_slash p : Str.contains Str.slash (OsPath.basename p) = false.
Proof.
  induction p as [|a r IH]; [done|].
  rewrite basename_cons.
  destruct (Str.contains Str.slash r) eqn:Hr; [done|].
  destruct (Ascii.eqb a Str.slash) eqn:Ha; [done|].
  simpl. by rewrite Ha, Hr.
Qed.

Lemma endswith_cons a s c :
  Str.endswith s c = true → Str.endswith (String a s) c = true.
Proof. destruct s; [done|]. done. Qed.

(** The last segment of a path: what follows the directory part, which is
    empty or ends with a slash. *)
Lemma basename_spec p :
  ∃ dir, p = dir +:+ OsPath.basename p
       ∧ (dir = "" ∨ Str.endswith dir Str.slash = true)
       ∧ Str.contains Str.slash (OsPath.basename p) = false.
Proof.
  induction p as [|a r (dir & Hr & Hdir & Hbase)].
  - exists "". split; [done|]. split; [by left|done].
  - rewrite basename_cons.
    destruct (Str.contains Str.slash r) eqn:Hslash.
    + exists (String a dir). split; [|split; [right|done]].
      * change (String a dir +:+ OsPath.basename r)
          with (String a (dir +:+ OsPath.basename r)). by rewrite <- Hr.
      * destruct Hdir as [->|Hdir]; [|by apply endswith_cons].
        change ("" +:+ OsPath.basename r) with (OsPath.basename r) in Hr.
        rewrite <- Hr in Hbase. congruence.
    + destruct (Ascii.eqb_spec a Str.slash) as [->|Ha].
      * exists "/". split; [done|]. split; [by right|done].
      * exists "". split; [done|]. split; [by left|].
        simpl. rewrite Hslash. by destruct (Ascii.eqb_spec a Str.slash).
Qed.

Lemma append_cons x (a b : string) : String x a +:+ b = String x (a +:+ b).
Proof. reflexivity. Qed.

Lemma append_nil (b : string) : "" +:+ b = b.
Proof. reflexivity. Qed.

Ltac unfold_append := rewrite ?append_cons, ?append_nil.

Lemma append_assoc (a b c : string) : (a +:+ b) +:+ c = a +:+ (b +:+ c).
Proof. induction a as [|x a IH]; [done|]. unfold_append. by rewrite IH. Qed.

Lemma contains_append c (a b : string) :
  Str.contains c (a +:+ b) = Str.contains c a || Str.contains c b.
Proof.
  induction a as [|x a IH]; [done|].
  unfold_append. simpl. rewrite IH. by rewrite orb_assoc.
Qed.

Lemma replace_append c new (a b : string) :
  Str.replace c new (a +:+ b) = Str.replace c new a +:+ Str.replace c new b.
Proof.
  induction a as [|x a IH]; [done|].
  unfold_append. simpl. rewrite IH.
  destruct (Ascii.eqb x c); [by rewrite append_assoc|done].
Qed.

Lemma replace_absent c new s :
  Str.contains c s = false → Str.replace c new s = s.
Proof.
  induction s as [|x s IH]; simpl; [done|].
  intros [Hx Hs]%orb_false_iff. rewrite Hx. by rewrite IH.
Qed.

Lemma replace_removes c new s :
  Str.contains c new = false → Str.contains c (Str.replace c new s) = false.
Proof.
  intros Hnew. induction s as [|x s IH]; simpl; [done|].
  destruct (Ascii.eqb x c) eqn:Hx.
  - rewrite contains_append. by rewrite Hnew, IH.
  - simpl. by rewrite Hx, IH.
Qed.

Lemma split_nonempty c s : Str.split c s ≠ [].
Proof.
  destruct s as [|a r]; simpl; [done|].
  destruct (Ascii.eqb a c); [done|]. by destruct (Str.split c r).
Qed.

Lemma split_append c (a b : string) :
  Str.split c (a +:+ String c b) = Str.split c a ++ Str.split c b.
Proof.
  induction a as [|x a IH]; unfold_append; simpl.
  - by rewrite Ascii.eqb_refl.
  - destruct (Ascii.eqb x c); [by rewrite IH|].
    rewrite IH. destruct (Str.split c a) as [|h t] eqn:Hsplit; [|done].
    by destruct (split_nonempty c a).
Qed.

Lemma split_absent c s : Str.contains c s = false → Str.split c s = [s].
Proof.
  induction s as [|x s IH]; simpl; [done|].
  intros [Hx Hs]%orb_false_iff. rewrite Hx. by rewrite IH.
Qed.

Lemma endswith_inv s c :
  Str.endswith s c = true → ∃ s', s = s' +:+ String c "".
Proof.
  induction s as [|x s IH]; simpl; [done|].
  destruct s as [|y s].
  - intros ->%Ascii.eqb_eq. by exists "".
  - intros [s' Hs']%IH. exists (String x s'). unfold_append. by rewrite <- Hs'.
Qed.

Lemma startswith_slash_absent n :
  Str.contains Str.slash n = false → Str.startswith n "/" = false.
Proof.
  destruct n as [|a r]; simpl; [done|].
  intros [Ha _]%orb_false_iff. unfold Str.slash in Ha. by rewrite Ha.
Qed.

Lemma startswith_append (t x : string) :
  t ≠ "" → Str.startswith (t +:+ x) "/" = Str.startswith t "/".
Proof. destruct t as [|a r]; [done|]. intros _. by unfold_append. Qed.

Lemma startswith_spec s p :
  Str.startswith s p = true ↔ ∃ rest, s = p +:+ rest.
Proof.
  revert s. induction p as [|b p IH]; intros s; simpl.
  - split; [intros _; by exists s|done].
  - destruct s as [|a s].
    + split; [done|]. by intros [rest ?].
    + rewrite andb_true_iff, Ascii.eqb_eq, IH. split.
      * intros [-> [rest ->]]. by exists rest.
      * intros [rest [= -> ->]]. split; [done|by exists rest].
Qed.

(** ** Facts about path resolution *)

Lemma walk_app f cur l1 l2 :
  Fs.walk f cur (l1 ++ l2) =
    match Fs.walk f cur l1 with
    | inl e => inl e
    | inr d => Fs.walk f d l2
    end.
Proof.
  revert cur. induction l1 as [|c l1 IH]; intros cur; simpl; [done|].
  destruct (Fs.enter f cur c); [done|apply IH].
Qed.

Lemma walk_trailing_slash f cur l : Fs.walk f cur (l ++ [""]) = Fs.walk f cur l.
Proof. rewrite walk_app. by destruct (Fs.walk f cur l). Qed.

Lemma enter_error f cur c e : Fs.enter f cur c = inl e → is_os_error e = true.
Proof.
  unfold Fs.enter. intros H.
  repeat match type of H with
         | (if ?b then _ else _) = _ => destruct b
         end; by inversion H.
Qed.

Lemma walk_error f cur cs e : Fs.walk f cur cs = inl e → is_os_error e = true.
Proof.
  revert cur. induction cs as [|c cs IH]; intros cur; simpl; [done|].
  destruct (Fs.enter f cur c) eqn:Hc.
  - intros [= <-]. by eapply enter_error.
  - apply IH.
Qed.

(** A successful resolution only looks at the directories. *)
Lemma enter_same_dirs f f' cur c d :
  dirs f' = dirs f → Fs.enter f cur c = inr d → Fs.enter f' cur c = inr d.
Proof.
  intros Hdirs. unfold Fs.enter, Fs.is_dir. rewrite Hdirs.
  destruct (Fs.stays c); [done|]. destruct (c =? "..")%string; [done|].
  destruct (bool_decide _); [done|]. by destruct (Fs.is_file f _).
Qed.

Lemma walk_same_dirs f f' cur cs d :
  dirs f' = dirs f → Fs.walk f cur cs = inr d → Fs.walk f' cur cs = inr d.
Proof.
  intros Hdirs. revert cur. induction cs as [|c cs IH]; intros cur; simpl; [done|].
  destruct (Fs.enter f cur c) eqn:Hc; [done|].
  rewrite (enter_same_dirs f f' cur c _ Hdirs Hc). apply IH.
Qed.

Lemma resolve_dir_same_dirs f f' t d :
  cwd f' = cwd f → dirs f' = dirs f →
  Fs.resolve_dir f t = inr d → Fs.resolve_dir f' t = inr d.
Proof.
  intros Hcwd Hdirs. unfold Fs.resolve_dir, Fs.origin. rewrite Hcwd.
  by apply walk_same_dirs.
Qed.

Lemma append_eq_empty (a b : string) : a +:+ b = "" → a = "" ∧ b = "".
Proof. destruct a; [done|]. by unfold_append. Qed.

Lemma join_empty_inv t n : OsPath.join t n = "" → t = "" ∧ n = "".
Proof.
  unfold OsPath.join. destruct (Str.startswith n "/") eqn:Hn.
  - intros ->. done.
  - destruct (_ || _).
    + by intros ?%append_eq_empty.
    + intros [_ [? _]%append_eq_empty]%append_eq_empty. done.
Qed.

(** The components of [join t n]: those of [t], then the name [n]. *)
Lemma join_components f t n :
  Str.contains Str.slash n = false → OsPath.join t n ≠ "" →
  Fs.walk f (Fs.origin f (OsPath.join t n))
            (removelast (Str.split Str.slash (OsPath.join t n)))
    = Fs.resolve_dir f t
  ∧ List.last (Str.split Str.slash (OsPath.join t n)) "" = n.
Proof.
  intros Hn Hne. unfold OsPath.join in *.
  rewrite (startswith_slash_absent n Hn) in *.
  destruct (String.eqb_spec t "") as [->|Ht]; simpl in *.
  - unfold_append. rewrite (split_absent _ n Hn). simpl. split; [|done].
    unfold Fs.resolve_dir, Fs.origin. by rewrite (startswith_slash_absent n Hn).
  - unfold Fs.resolve_dir, Fs.origin.
    destruct (Str.endswith t Str.slash) eqn:Hend.
    + destruct (endswith_inv _ _ Hend) as [t' Ht'].
      rewrite (startswith_append t n Ht). rewrite Ht'.
      rewrite append_assoc. unfold_append.
      rewrite !split_append, (split_absent _ n Hn). simpl Str.split.
      rewrite removelast_last, last_last, walk_trailing_slash. done.
    + rewrite (startswith_append t _ Ht).
      change (t +:+ "/" +:+ n) with (t +:+ String Str.slash n).
      rewrite split_append, (split_absent _ n Hn).
      by rewrite removelast_last, last_last.
Qed.

Lemma strip_trailing_named cs :
  List.last cs "" ≠ "" → Fs.strip_trailing cs = cs.
Proof.
  induction cs as [|c r IH]; [done|]. destruct r as [|x r].
  - simpl. intros Hc. by destruct (String.eqb_spec c "").
  - intros Hlast. change (Fs.strip_trailing (c :: x :: r))
      with (match Fs.strip_trailing (x :: r) with
            | [] => if String.eqb c "" then [] else [c]
            | r' => c :: r'
            end).
    by rewrite (IH Hlast).
Qed.

Lemma strip_trailing_snoc cs :
  Fs.strip_trailing (cs ++ [""]) = Fs.strip_trailing cs.
Proof. induction cs as [|c r IH]; simpl; [done|by rewrite IH]. Qed.

Lemma strip_trailing_prefix cs : ∃ tail, cs = Fs.strip_trailing cs ++ tail.
Proof.
  induction cs as [|c r [tail IH]]; simpl; [by exists []|].
  destruct (Fs.strip_trailing r) as [|x r'].
  - destruct (String.eqb c ""); [by exists (c :: r)|by exists r].
  - exists tail. by rewrite IH at 1.
Qed.

Lemma removelast_prefix {A : Type} (l : list A) : ∃ tail, l = removelast l ++ tail.
Proof.
  destruct l as [|x l]; [by exists []|].
  exists [List.last (x :: l) x]. by apply app_removelast_last.
Qed.

Lemma walk_prefix f cur l1 l2 d :
  Fs.walk f cur (l1 ++ l2) = inr d → ∃ d', Fs.walk f cur l1 = inr d'.
Proof.
  rewrite walk_app. destruct (Fs.walk f cur l1) as [e|d']; [done|by exists d'].
Qed.

(** The directories before the last name of a path that resolves are
    found. *)
Lemma walk_before_last f cur cs d :
  Fs.walk f cur cs = inr d →
  ∃ d', Fs.walk f cur (removelast (Fs.strip_trailing cs)) = inr d'.
Proof.
  intros Hd. destruct (strip_trailing_prefix cs) as [tail1 H1].
  destruct (removelast_prefix (Fs.strip_trailing cs)) as [tail2 H2].
  rewrite H1, H2, <- app_assoc in Hd. by apply walk_prefix in Hd.
Qed.

(** Opening [join t n] for writing, in terms of the directory [t] denotes. *)
Lemma open_wb_join f t n :
  Str.contains Str.slash n = false → n ≠ "" →
  Fs.open_wb f (OsPath.join t n) =
    match Fs.resolve_dir f t with
    | inl e => inl e
    | inr d =>
        if negb (Fs.file_name n) then inl IsADirectoryError
        else if Fs.is_dir f (d ++ [n]) then inl IsADirectoryError
        else inr (d ++ [n],
                  mk_fs (cwd f) (dirs f) (<[d ++ [n] := []]> (files f)))
    end.
Proof.
  intros Hn Hnz.
  assert (Hne : OsPath.join t n ≠ "") by (by intros [_ ?]%join_empty_inv).
  unfold Fs.open_wb.
  destruct (String.eqb_spec (OsPath.join t n) ""); [done|].
  destruct (join_components f t n Hn Hne) as [-> ->].
  by destruct (String.eqb_spec n "").
Qed.

(** Opening [join t ""], a path that ends with a slash: an error of the file
    system, [IsADirectoryError] when the target is a directory. *)
Lemma open_wb_trailing f t :
  t ≠ "" →
  ∃ e, Fs.open_wb f (OsPath.join t "") = inl e ∧ is_os_error e = true
     ∧ (∀ d, Fs.resolve_dir f t = inr d → e = IsADirectoryError).
Proof.
  intros Ht.
  assert (Hne : OsPath.join t "" ≠ "") by (by intros [? _]%join_empty_inv).
  destruct (join_components f t "" eq_refl Hne) as [Hwalk Hlast].
  unfold Fs.open_wb. destruct (String.eqb_spec (OsPath.join t "") ""); [done|].
  rewrite Hlast. cbn [String.eqb].
  destruct (Fs.walk f _ (removelast (Fs.strip_trailing _))) as [e|d'] eqn:Hparent.
  - exists e. split; [done|]. split; [by eapply walk_error|].
    intros d Hd. rewrite Hd in Hwalk.
    assert (Hcs : Str.split Str.slash (OsPath.join t "")
                  = removelast (Str.split Str.slash (OsPath.join t "")) ++ [""]).
    { rewrite <- Hlast at 3. apply app_removelast_last, split_nonempty. }
    rewrite Hcs, strip_trailing_snoc in Hparent.
    destruct (walk_before_last _ _ _ _ Hwalk) as [d'' Hd'']. congruence.
  - by exists IsADirectoryError.
Qed.

Lemma file_name_no_slash n :
  Fs.file_name n = true → Str.contains Str.slash n = false ∧ n ≠ "".
Proof.
  unfold Fs.file_name. intros H%negb_true_iff.
  apply orb_false_iff in H as [H ?]. apply orb_false_iff in H as [H _].
  split; [done|]. intros ->. done.
Qed.

Lemma join_file_name_nonempty t n : Fs.file_name n = true → OsPath.join t n ≠ "".
Proof.
  intros [_ Hn]%file_name_no_slash [_ ?]%join_empty_inv. done.
Qed.

(** A directory that does not resolve: nothing can be opened under it, and
    the error is the one of the resolution unless the name is empty. *)
Lemma open_wb_unresolved f t n e :
  Str.contains Str.slash n = false → Fs.resolve_dir f t = inl e →
  ∃ e', Fs.open_wb f (OsPath.join t n) = inl e' ∧ is_os_error e' = true
      ∧ (n ≠ "" → e' = e).
Proof.
  intros Hn He. destruct (decide (n = "")) as [->|Hnz].
  - destruct (open_wb_trailing f t) as (e' & Hopen & Hos & _).
    + intros ->. done.
    + by exists e'.
  - exists e. rewrite open_wb_join, He by done.
    split; [done|]. split; [by eapply walk_error|done].
Qed.

(** ** Running the loop of [download] *)

Lemma bind_run {A B : Type} (c : M A) (k : A → M B) w :
  (c ≫= k) w =
    match c w with
    | (inl e, w') => (inl e, w')
    | (inr a, w') => k a w'
    end.
Proof. reflexivity. Qed.

Lemma for_each_app {A S : Type} (l1 l2 : list A) (body : A → S → M S) s w :
  for_each (l1 ++ l2) body s w =
    match for_each l1 body s w with
    | (inl e, w') => (inl e, w')
    | (inr s', w') => for_each l2 body s' w'
    end.
Proof.
  revert s w. induction l1 as [|x l1 IH]; intros s w; simpl; [done|].
  rewrite !bind_run. destruct (body x s w) as [[e|s'] w']; [done|apply IH].
Qed.

Lemma is_dir_same_dirs f f' l : dirs f' = dirs f → Fs.is_dir f' l = Fs.is_dir f l.
Proof. intros H. unfold Fs.is_dir. by rewrite H. Qed.

Lemma write_after_open (c : list string) (ds : gset (list string))
    (m : gmap (list string) (list byte)) h data :
  Fs.write (mk_fs c ds (<[h := []]> m)) h data = mk_fs c ds (<[h := data]> m).
Proof.
  unfold Fs.write. cbn [cwd dirs files].
  by rewrite lookup_insert_eq, insert_insert_eq.
Qed.

(** One object in the per-object modes, when nothing fails. *)
Lemma download_object_saved b t raw merge o acc w d :
  raw = false ∨ merge = false →
  Fs.resolve_dir (fs w) t = inr d →
  Fs.file_name (OsPath.basename (key o)) = true →
  Fs.is_dir (fs w) (dest d o) = false →
  transfer o = Healthy →
  (raw = false → stored b (key o) = Some o) →
  download_object b t raw merge o acc w =
    (inr acc,
     mk_world (environ w)
       (mk_fs (cwd (fs w)) (dirs (fs w)) (<[dest d o := body o]> (files (fs w))))
       (stdout w ++ [downloaded_line t o])).
Proof.
  intros Hmode Hd Hname Hfree Hlink Hstored.
  destruct (file_name_no_slash _ Hname) as [Hslash Hne].
  unfold download_object.
  assert (Hopen : open_wb (OsPath.join t (OsPath.basename (key o))) w =
                  (inr (dest d o),
                   mk_world (environ w)
                     (mk_fs (cwd (fs w)) (dirs (fs w))
                        (<[dest d o := []]> (files (fs w)))) (stdout w))).
  { unfold open_wb, fs_call. rewrite (open_wb_join _ _ _ Hslash Hne), Hd, Hname.
    unfold negb. fold (dest d o). by rewrite Hfree. }
  destruct raw; unfold negb.
  - destruct Hmode as [?| ->]; [done|].
    unfold read. rewrite Hlink. unfold mbind, M_bind, mret, M_ret.
    rewrite Hopen. unfold write, fs_call, print.
    cbn [fs environ stdout]. by rewrite write_after_open.
  - unfold download_fileobj. rewrite (Hstored eq_refl), Hlink.
    unfold mbind, M_bind, mret, M_ret.
    rewrite Hopen. unfold write, fs_call, print.
    cbn [fs environ stdout]. by rewrite write_after_open.
Qed.

Lemma world_eta w :
  w = mk_world (environ w) (mk_fs (cwd (fs w)) (dirs (fs w)) (files (fs w)))
        (stdout w).
Proof. by destruct w as [? [] ?]. Qed.

Lemma writable_same_dirs f f' l : dirs f' = dirs f → writable f l → writable f' l.
Proof. intros H [? ?]. split; [done|]. by rewrite (is_dir_same_dirs f f' l H). Qed.

Lemma writable_dest f d o :
  writable f (dest d o) →
  Fs.file_name (OsPath.basename (key o)) = true ∧ Fs.is_dir f (dest d o) = false.
Proof. unfold writable, dest. by rewrite last_last. Qed.

(** The loop in the per-object modes, when nothing fails: every object is
    saved at its destination, in the order of the enumeration. *)
Lemma loop_saved b t raw merge d l : ∀ acc w,
  raw = false ∨ merge = false →
  Fs.resolve_dir (fs w) t = inr d →
  Forall (λ o, writable (fs w) (dest d o) ∧ transfer o = Healthy
               ∧ (raw = false → stored b (key o) = Some o)) l →
  for_each l (download_object b t raw merge) acc w =
    (inr acc,
     mk_world (environ w)
       (mk_fs (cwd (fs w)) (dirs (fs w)) (saved d l (files (fs w))))
       (stdout w ++ map (downloaded_line t) l)).
Proof.
  induction l as [|o l IH]; intros acc w Hmode Hd Hall.
  - simpl. rewrite app_nil_r. by rewrite <- world_eta.
  - apply Forall_cons in Hall as [(Hw & Hlink & Hstored) Hall].
    destruct (writable_dest _ _ _ Hw) as [Hname Hfree].
    simpl. rewrite bind_run.
    rewrite (download_object_saved b t raw merge o acc w d) by done.
    rewrite IH; cbn [fs environ stdout cwd dirs files].
    + by rewrite <- app_assoc.
    + done.
    + by apply (resolve_dir_same_dirs (fs w)).
    + eapply Forall_impl; [exact Hall|].
      intros o' (Hw' & ? & ?). split; [|done].
      by apply (writable_same_dirs (fs w)).
Qed.

(** The loop in merge mode reads and accumulates; it leaves the world alone. *)
Lemma loop_merged b t l : ∀ acc w,
  Forall (λ o, transfer o = Healthy) l →
  for_each l (download_object b t true true) acc w =
    (inr (acc ++ merged_payload l), w).
Proof.
  induction l as [|o l IH]; intros acc w Hall.
  - simpl. by rewrite app_nil_r.
  - apply Forall_cons in Hall as [Hlink Hall].
    simpl. rewrite bind_run. unfold download_object, read. rewrite Hlink.
    unfold negb. rewrite bind_run. cbn [mret M_ret].
    rewrite IH by done. unfold merged_payload. simpl.
    by rewrite <- !app_assoc.
Qed.

Lemma loop_merged_world b t l : ∀ acc w r w',
  for_each l (download_object b t true true) acc w = (r, w') → w' = w.
Proof.
  induction l as [|o l IH]; intros acc w r w'; simpl.
  - by intros [= _ <-].
  - rewrite bind_run. unfold download_object, read, negb.
    destruct (transfer o); rewrite bind_run; cbn [mret M_ret raise].
    + apply IH.
    + by intros [= _ <-].
Qed.

(** Without [raw] the loop never touches the accumulator. *)
Lemma loop_keeps_acc b t merge l : ∀ acc w acc' w',
  for_each l (download_object b t false merge) acc w = (inr acc', w') →
  acc' = acc.
Proof.
  induction l as [|o l IH]; intros acc w acc' w'; simpl.
  - by intros [= <- _].
  - rewrite bind_run.
    destruct (download_object b t false merge o acc w) as [[e|a] w1] eqn:Hone;
      [done|].
    intros Hrest. apply IH in Hrest as ->.
    revert Hone. unfold download_object, negb. rewrite !bind_run.
    destruct (open_wb _ w) as [[?|h] w2]; [done|]. rewrite bind_run.
    destruct (download_fileobj b (key o) h w2) as [[?|?] w3]; [done|].
    rewrite bind_run. unfold print, mret, M_ret. by intros [= <- _].
Qed.

Lemma length_append (a b : string) :
  String.length (a +:+ b) = String.length a + String.length b.
Proof. induction a as [|x a IH]; [done|]. unfold_append. simpl. by rewrite IH. Qed.

Lemma long_name_is_file_name n :
  Str.contains Str.slash n = false → (3 ≤ String.length n)%nat →
  Fs.file_name n = true.
Proof.
  intros Hn Hlen. unfold Fs.file_name, Fs.stays. rewrite Hn.
  destruct n as [|a [|b [|c n]]]; simpl in Hlen; try lia.
  simpl. by destruct (Ascii.eqb a "."), (Ascii.eqb b ".").
Qed.

Lemma merged_file_name_append b prefix :
  merged_file_name b prefix =
    Str.replace Str.slash "__" (name b) +:+ "__"
    +:+ Str.replace Str.slash "__" prefix +:+ ".json".
Proof. unfold merged_file_name. by rewrite !replace_append. Qed.

Lemma merged_file_name_ok b prefix :
  Fs.file_name (merged_file_name b prefix) = true.
Proof.
  apply long_name_is_file_name.
  - by apply replace_removes.
  - rewrite merged_file_name_append, !length_append. simpl. lia.
Qed.

(** The statements after the loop, by cases on the target directory. *)
Lemma write_merged_cases b prefix t data w :
  write_merged b prefix t true data w =
    match Fs.resolve_dir (fs w) t with
    | inl e => (inl e, w)
    | inr d =>
        if Fs.is_dir (fs w) (d ++ [merged_file_name b prefix])
        then (inl IsADirectoryError, w)
        else
          (inr tt,
           mk_world (environ w)
             (mk_fs (cwd (fs w)) (dirs (fs w))
                (<[d ++ [merged_file_name b prefix] := data]> (files (fs w))))
             (stdout w ++ [merged_line b prefix t]))
    end.
Proof.
  pose proof (merged_file_name_ok b prefix) as Hname.
  destruct (file_name_no_slash _ Hname) as [Hslash Hne].
  unfold write_merged, mbind, M_bind, open_wb, fs_call.
  rewrite (open_wb_join _ _ _ Hslash Hne), Hname. unfold negb.
  destruct (Fs.resolve_dir (fs w) t) as [e|d]; [done|].
  destruct (Fs.is_dir (fs w) _); [done|].
  unfold write, fs_call, print. cbn [fs environ stdout].
  by rewrite write_after_open.
Qed.

Lemma write_merged_run b prefix t data w d :
  Fs.resolve_dir (fs w) t = inr d →
  Fs.is_dir (fs w) (d ++ [merged_file_name b prefix]) = false →
  write_merged b prefix t true data w =
    (inr tt,
     mk_world (environ w)
       (mk_fs (cwd (fs w)) (dirs (fs w))
          (<[d ++ [merged_file_name b prefix] := data]> (files (fs w))))
       (stdout w ++ [merged_line b prefix t])).
Proof. intros Hd Hfree. by rewrite write_merged_cases, Hd, Hfree. Qed.

(** [download], step by step: profile, banner, directories, loop, merge. *)
Lemma download_run b prefix profile t new_dir raw merge w :
  download b prefix profile t new_dir raw merge w =
    match prepared new_dir t (fs w) with
    | inl (e, f') =>
        (inl e,
         mk_world (<["AWS_PROFILE" := profile]> (environ w)) f'
           (stdout w ++ [download_banner b prefix]))
    | inr f0 =>
        match for_each (objects_filter b prefix)
                (download_object b t raw merge) []
                (mk_world (<["AWS_PROFILE" := profile]> (environ w)) f0
                   (stdout w ++ [download_banner b prefix])) with
        | (inl e, w') => (inl e, w')
        | (inr acc, w') => write_merged b prefix t merge acc w'
        end
    end.
Proof.
  unfold download, prepared, set_profile, setenv, print, makedirs.
  unfold mbind, M_bind, mret, M_ret.
  destruct w as [env f out]. cbv beta iota delta [fs environ stdout].
  destruct new_dir; [|done].
  by destruct (Fs.makedirs f t) as [[e f']|f'].
Qed.

(** ** The object served for a key *)

Lemma find_unique (l : list s3_object) o :
  NoDup (map key l) → In o l →
  List.find (λ o', String.eqb (key o') (key o)) l = Some o.
Proof.
  induction l as [|x l IH]; simpl; [done|].
  intros [Hx Hl]%NoDup_cons [->|Hin].
  - by rewrite String.eqb_refl.
  - destruct (String.eqb_spec (key x) (key o)) as [Heq|_]; [|by apply IH].
    destruct Hx. rewrite Heq. apply list_elem_of_In, in_map, Hin.
Qed.

Lemma filtered_stored b prefix :
  unique_keys b →
  Forall (λ o, stored b (key o) = Some o) (objects_filter b prefix).
Proof.
  intros Hb. apply List.Forall_forall. intros o [Hin _]%filter_In.
  by apply find_unique.
Qed.

(** ** Facts about [saved] *)

Lemma saved_app d l1 l2 m : saved d (l1 ++ l2) m = saved d l2 (saved d l1 m).
Proof. apply foldl_app. Qed.

Lemma saved_other d l (p : list string) :
  ∀ m, Forall (λ o, dest d o ≠ p) l → saved d l m !! p = m !! p.
Proof.
  induction l as [|o l IH]; intros m Hall; [done|].
  apply Forall_cons in Hall as [Ho Hall]. simpl.
  rewrite (IH _ Hall). by rewrite lookup_insert_ne.
Qed.

(** The last object saved at a destination is the one found there. *)
Lemma saved_last d l1 o l2 m :
  Forall (λ o', OsPath.basename (key o') ≠ OsPath.basename (key o)) l2 →
  saved d (l1 ++ o :: l2) m !! dest d o = Some (body o).
Proof.
  intros Hlater. rewrite saved_app. simpl. rewrite saved_other.
  - by rewrite lookup_insert_eq.
  - eapply Forall_impl; [exact Hlater|]. intros o' Hne Heq. apply Hne.
    unfold dest in Heq. by apply app_inv_head in Heq as [= ->].
Qed.

(** ** Creating the target directory *)

(** One step only adds a directory, and the step can be walked afterwards. *)
Lemma make_step f cur c last next f1 :
  Fs.make f cur c last = inr (next, f1) →
  dirs f ⊆ dirs f1 ∧ cwd f1 = cwd f ∧ files f1 = files f
  ∧ ∀ f'', dirs f1 ⊆ dirs f'' → Fs.enter f'' cur c = inr next.
Proof.
  unfold Fs.make, Fs.enter.
  destruct (Fs.stays c); [by intros [= <- <-]|].
  destruct (c =? "..")%string; [by intros [= <- <-]|].
  destruct (Fs.is_dir f (cur ++ [c])) eqn:Hdir.
  - intros [= <- <-]. repeat split; try done.
    intros f'' Hf''. unfold Fs.is_dir in *.
    apply bool_decide_eq_true in Hdir as [Hnil|Hin]; [by destruct cur|].
    rewrite bool_decide_eq_true_2; [done|]. right. by apply Hf''.
  - destruct (Fs.is_file f (cur ++ [c])); [done|].
    intros [= <- <-]. cbn [dirs cwd files]. repeat split; try done.
    + apply union_subseteq_r.
    + intros f'' Hf''. unfold Fs.is_dir.
      rewrite bool_decide_eq_true_2; [done|]. right.
      apply Hf'', elem_of_union_l. by apply elem_of_singleton.
Qed.

Lemma make_error f cur c last e :
  Fs.make f cur c last = inl e → is_os_error e = true.
Proof.
  unfold Fs.make. intros H.
  repeat match type of H with
         | (if ?b then _ else _) = _ => destruct b
         end; try done.
  destruct last; by inversion H.
Qed.

Lemma make_all_walk cs : ∀ f cur d f',
  Fs.make_all f cur cs = inr (d, f') →
  dirs f ⊆ dirs f' ∧ cwd f' = cwd f ∧ files f' = files f
  ∧ ∀ f'', dirs f' ⊆ dirs f'' → Fs.walk f'' cur cs = inr d.
Proof.
  induction cs as [|c cs IH]; intros f cur d f'; simpl.
  - intros [= <- <-]. done.
  - destruct (Fs.make f cur c _) as [e|[next f1]] eqn:Hmake; [done|].
    intros (Hsub & Hcwd & Hfiles & Hwalk)%IH.
    destruct (make_step _ _ _ _ _ _ Hmake) as (Hsub1 & Hcwd1 & Hfiles1 & Henter).
    repeat split.
    + by etrans.
    + congruence.
    + congruence.
    + intros f'' Hf''. rewrite Henter by (by etrans). by apply Hwalk.
Qed.

(** When a directory cannot be made, the ones made before it stay; nothing
    else changed. *)
Lemma make_all_failed cs : ∀ f cur e f',
  Fs.make_all f cur cs = inl (e, f') →
  dirs f ⊆ dirs f' ∧ cwd f' = cwd f ∧ files f' = files f
  ∧ is_os_error e = true.
Proof.
  induction cs as [|c cs IH]; intros f cur e f'; simpl; [done|].
  destruct (Fs.make f cur c _) as [e1|[next f1]] eqn:Hmake.
  - intros [= <- <-]. repeat split; try done. by eapply make_error.
  - intros (Hsub & Hcwd & Hfiles & Hos)%IH.
    destruct (make_step _ _ _ _ _ _ Hmake) as (Hsub1 & Hcwd1 & Hfiles1 & _).
    repeat split; [by etrans|congruence|congruence|done].
Qed.

(** After [makedirs] the path resolves, and no file was touched. *)
Lemma makedirs_resolves f t f' :
  Fs.makedirs f t = inr f' →
  (∃ d, Fs.resolve_dir f' t = inr d)
  ∧ cwd f' = cwd f ∧ files f' = files f ∧ dirs f ⊆ dirs f'.
Proof.
  unfold Fs.makedirs. destruct (t =? "")%string; [done|].
  destruct (Fs.make_all f (Fs.origin f t) _) as [e|[d f1]] eqn:Hall; [done|].
  intros [= <-]. apply make_all_walk in Hall as (Hsub & Hcwd & Hfiles & Hwalk).
  repeat split; try done.
  exists d. unfold Fs.resolve_dir, Fs.origin in *. rewrite Hcwd. by apply Hwalk.
Qed.

(** A [makedirs] that fails leaves the directories it made, the files and
    the current directory being what they were. *)
Lemma makedirs_failed f t e f' :
  Fs.makedirs f t = inl (e, f') →
  dirs f ⊆ dirs f' ∧ cwd f' = cwd f ∧ files f' = files f
  ∧ is_os_error e = true.
Proof.
  unfold Fs.makedirs. destruct (t =? "")%string; [by intros [= <- <-]|].
  destruct (Fs.make_all f (Fs.origin f t) _) as [[e1 f1]|[d f1]] eqn:Hall;
    [|done].
  intros [= <- <-]. by apply make_all_failed in Hall.
Qed.

Lemma prepared_files new_dir t f f0 :
  prepared new_dir t f = inr f0 → files f0 = files f.
Proof.
  unfold prepared. destruct new_dir; [|by intros [= <-]].
  by intros (_ & _ & ? & _)%makedirs_resolves.
Qed.

(** ** A transfer that breaks *)



(** ** [download]: the merge flag *)

(** C1, the run that shows it.  On the sample bucket, without [raw], the run
    with [merge=true] saves the two objects as the run with [merge=false]
    does and then writes the merged file: a file that [merge=false] does not
    write, and an empty one, although both objects have a payload. *)
Lemma merge_flag_visible_without_raw :
  files (fs (download Sample.logs "logs/" "production" "out"
               false false true Sample.start).2)
    = <[ ["home"; "out"; "bkt__logs__.json"] := [] ]>
        (files (fs (download Sample.logs "logs/" "production" "out"
                      false false false Sample.start).2))
  ∧ files (fs (download Sample.logs "logs/" "production" "out"
                 false false false Sample.start).2)
    = {[ ["home"; "out"; "a"] := Sample.payload "AAA";
         ["home"; "out"; "b"] := Sample.payload "BBB" ]}
  ∧ files (fs (download Sample.logs "logs/" "production" "out"
                 false false true Sample.start).2)
    ≠ files (fs (download Sample.logs "logs/" "production" "out"
                   false false false Sample.start).2).
Proof.
  split; [by vm_compute|]. split; [by vm_compute|].
  intros H.
  apply (f_equal (λ m : gmap (list string) (list byte),
                    m !! ["home"; "out"; "bkt__logs__.json"])) in H.
  vm_compute in H. discriminate H.
Qed.

(** C1.  What the code does without [raw]: a run with [merge=true] is the run
    with [merge=false] (same per-object files, same contents, same lines)
    followed, when that run completes, by the statements after the loop,
    which are guarded by [merge] alone.  They write the merged file from the
    accumulator, and the accumulator is still empty, since only the [raw]
    branch appends to it: the merged file holds no payload. *)
Theorem merge_without_raw b prefix profile target new_dir w :
  download b prefix profile target new_dir false true w =
    (download b prefix profile target new_dir false false
       ≫= λ _, write_merged b prefix target true []) w.
Proof.
  rewrite bind_run, !download_run.
  destruct (prepared new_dir target (fs w)) as [[e f1]|f0]; [done|].
  change (download_object b target false true)
    with (download_object b target false false).
  destruct (for_each _ _ _ _) as [[e|acc] w1] eqn:Hloop; [done|].
  apply loop_keeps_acc in Hloop as ->. done.
Qed.

(** C2.  With [raw] and [merge], when the target directory is there and the
    payloads can be read, the run writes one file, the merged file, whose
    content is the payloads in the order of the enumeration, each followed by
    one newline byte; the other files are as they were. *)
Theorem download_raw_merge b prefix profile target new_dir w f0 d :
  prepared new_dir target (fs w) = inr f0 →
  Fs.resolve_dir f0 target = inr d →
  Fs.is_dir f0 (d ++ [merged_file_name b prefix]) = false →
  Forall (λ o, transfer o = Healthy) (objects_filter b prefix) →
  download b prefix profile target new_dir true true w =
    (inr tt,
     mk_world (<["AWS_PROFILE" := profile]> (environ w))
       (mk_fs (cwd f0) (dirs f0)
          (<[d ++ [merged_file_name b prefix] :=
               merged_payload (objects_filter b prefix)]> (files (fs w))))
       (stdout w ++ [download_banner b prefix; merged_line b prefix target])).
Proof.
  intros Hprep Hd Hfree Hall.
  rewrite download_run, Hprep, (loop_merged _ _ _ _ _ Hall).
  rewrite (write_merged_run _ _ _ _ _ d) by done.
  cbn [fs environ stdout cwd dirs files].
  rewrite (prepared_files _ _ _ _ Hprep). by rewrite <- app_assoc.
Qed.

(** C2, witness, on the payloads [AAA] and [BBB] of the sample bucket. *)
Lemma download_raw_merge_witness :
  ∃ w', download Sample.logs "logs/" "production" "out" false true true
          Sample.start = (inr tt, w')
        ∧ map_to_list (files (fs w'))
          = [(["home"; "out"; "bkt__logs__.json"],
              [x41; x41; x41; x0a; x42; x42; x42; x0a])].
Proof.
  eexists. split.
  - apply (download_raw_merge Sample.logs "logs/" "production" "out" false
             Sample.start Sample.home ["home"; "out"]).
    + reflexivity.
    + vm_compute. reflexivity.
    + vm_compute. reflexivity.
    + repeat constructor.
  - vm_compute. reflexivity.
Defined.

(** C3.  When a run with [merge] completes, the merged file is in the target
    directory, under the name made of the bucket name, two underscores, the
    prefix and [.json], with each slash replaced by two underscores: no slash
    is left in the name, so the file is directly under the target, and a
    name that had no slash is kept as it is.  The last line printed names
    the target joined with that name. *)
Theorem merged_file_location b prefix profile target new_dir raw w w' :
  download b prefix profile target new_dir raw true w = (inr tt, w') →
  ∃ d, Fs.resolve_dir (fs w') target = inr d
     ∧ is_Some (files (fs w') !! (d ++ [merged_file_name b prefix]))
     ∧ merged_file_name b prefix =
         Str.replace Str.slash "__" (name b +:+ "__" +:+ prefix +:+ ".json")
     ∧ merged_file_name b prefix =
         Str.replace Str.slash "__" (name b) +:+ "__"
         +:+ Str.replace Str.slash "__" prefix +:+ ".json"
     ∧ Str.contains Str.slash (merged_file_name b prefix) = false
     ∧ (Str.contains Str.slash (name b +:+ prefix) = false →
        merged_file_name b prefix = name b +:+ "__" +:+ prefix +:+ ".json")
     ∧ List.last (stdout w') (Text "") = merged_line b prefix target.
Proof.
  rewrite download_run.
  destruct (prepared new_dir target (fs w)) as [[e f1]|f0]; [done|].
  destruct (for_each _ _ _ _) as [[e|acc] w1]; [done|].
  rewrite write_merged_cases.
  destruct (Fs.resolve_dir (fs w1) target) as [e|d] eqn:Hd; [done|].
  destruct (Fs.is_dir (fs w1) _); [done|].
  intros [= <-]. exists d. cbn [fs stdout files].
  split; [by apply (resolve_dir_same_dirs (fs w1))|].
  split; [by rewrite lookup_insert_eq|].
  split; [done|].
  split; [apply merged_file_name_append|].
  split; [by apply replace_removes|].
  split; [|apply last_last].
  intros Hclean. apply replace_absent.
  rewrite !contains_append in *. apply orb_false_iff in Hclean as [-> ->]. done.
Qed.

(** C3, witness. *)
Lemma merged_file_location_witness :
  ∃ d, Fs.resolve_dir
         (fs (download Sample.logs "logs/" "production" "out"
                false true true Sample.start).2) "out" = inr d
     ∧ is_Some (files (fs (download Sample.logs "logs/" "production" "out"
                             false true true Sample.start).2)
                !! (d ++ [merged_file_name Sample.logs "logs/"]))
     ∧ merged_file_name Sample.logs "logs/" = "bkt__logs__.json".
Proof.
  destruct (merged_file_location Sample.logs "logs/" "production" "out"
              false true Sample.start
              (download Sample.logs "logs/" "production" "out"
                 false true true Sample.start).2)
    as (d & Hd & Hfile & _).
  - vm_compute. reflexivity.
  - exists d. split; [exact Hd|]. split; [exact Hfile|reflexivity].
Defined.

(** C9.  With [merge] and no matching object, when the target directory is
    there, the run completes and writes the merged file, empty. *)
Theorem download_merge_nothing b prefix profile target new_dir raw w f0 d :
  objects_filter b prefix = [] →
  prepared new_dir target (fs w) = inr f0 →
  Fs.resolve_dir f0 target = inr d →
  Fs.is_dir f0 (d ++ [merged_file_name b prefix]) = false →
  download b prefix profile target new_dir raw true w =
    (inr tt,
     mk_world (<["AWS_PROFILE" := profile]> (environ w))
       (mk_fs (cwd f0) (dirs f0)
          (<[d ++ [merged_file_name b prefix] := []]> (files (fs w))))
       (stdout w ++ [download_banner b prefix; merged_line b prefix target])).
Proof.
  intros Hnone Hprep Hd Hfree.
  rewrite download_run, Hprep, Hnone. simpl for_each. cbn [mret M_ret].
  rewrite (write_merged_run _ _ _ _ _ d) by done.
  cbn [fs environ stdout cwd dirs files].
  rewrite (prepared_files _ _ _ _ Hprep). by rewrite <- app_assoc.
Qed.

(** C9, witness: no key of the sample bucket starts with [none/]. *)
Lemma download_merge_nothing_witness :
  ∃ w', download Sample.logs "none/" "production" "out" false false true
          Sample.start = (inr tt, w')
        ∧ map_to_list (files (fs w'))
          = [(["home"; "out"; "bkt__none__.json"], [])].
Proof.
  eexists. split.
  - apply (download_merge_nothing Sample.logs "none/" "production" "out" false
             false Sample.start Sample.home ["home"; "out"]).
    + reflexivity.
    + reflexivity.
    + vm_compute. reflexivity.
    + vm_compute. reflexivity.
  - vm_compute. reflexivity.
Defined.

(** ** [download]: one file per object *)

(** The hypotheses of a per-object run carry over to the loop. *)
Lemma per_object_ready b raw f0 d (l : list s3_object) :
  Forall (λ o, stored b (key o) = Some o) l →
  Forall (λ o, writable f0 (dest d o) ∧ transfer o = Healthy) l →
  Forall (λ o, writable f0 (dest d o) ∧ transfer o = Healthy
               ∧ (raw = false → stored b (key o) = Some o)) l.
Proof.
  intros Hs Hw. induction l as [|o l IH]; [constructor|].
  apply Forall_cons in Hs as [? ?]. apply Forall_cons in Hw as [[? ?] ?].
  constructor; [done|by apply IH].
Qed.

(** C7.  In the modes that write one file per object, when the target
    directory is there and the payloads arrive, the file of an object is
    opened at the target joined with the last segment of its key, which is
    the entry of that name in the target directory.  The objects are saved in
    the order of the enumeration, so of two objects whose keys end in the same
    segment the later one is what the shared path holds.  The last segment is
    what is left of the key once its directory part, empty or ending with a
    slash, is taken off; it has no slash. *)
Theorem download_per_object b prefix profile target new_dir raw merge w f0 d :
  raw = false ∨ merge = false →
  unique_keys b →
  prepared new_dir target (fs w) = inr f0 →
  Fs.resolve_dir f0 target = inr d →
  Forall (λ o, writable f0 (dest d o) ∧ transfer o = Healthy)
         (objects_filter b prefix) →
  (merge = true → Fs.is_dir f0 (d ++ [merged_file_name b prefix]) = false) →
  download b prefix profile target new_dir raw merge w =
    (inr tt,
     mk_world (<["AWS_PROFILE" := profile]> (environ w))
       (mk_fs (cwd f0) (dirs f0)
          ((if merge then <[d ++ [merged_file_name b prefix] := []]> else id)
             (saved d (objects_filter b prefix) (files (fs w)))))
       (stdout w ++ download_banner b prefix
          :: map (downloaded_line target) (objects_filter b prefix)
          ++ (if merge then [merged_line b prefix target] else [])))
  ∧ Forall (λ o, ∃ f', Fs.open_wb f0 (local_path target o) = inr (dest d o, f'))
           (objects_filter b prefix)
  ∧ (∀ l1 o1 l2 o2 l3,
      objects_filter b prefix = l1 ++ o1 :: l2 ++ o2 :: l3 →
      OsPath.basename (key o1) = OsPath.basename (key o2) →
      Forall (λ o, OsPath.basename (key o) ≠ OsPath.basename (key o2)) l3 →
      local_path target o1 = local_path target o2
      ∧ saved d (objects_filter b prefix) (files (fs w)) !! dest d o1
        = Some (body o2))
  ∧ ∀ o, ∃ dir, key o = dir +:+ OsPath.basename (key o)
              ∧ (dir = "" ∨ Str.endswith dir Str.slash = true)
              ∧ Str.contains Str.slash (OsPath.basename (key o)) = false.
Proof.
  intros Hmode Hb Hprep Hd Hall Hfree. split; [|split; [|split]].
  4: { intros o. apply basename_spec. }
  - rewrite download_run, Hprep.
    rewrite (loop_saved b target raw merge d); cbn [fs environ stdout]; try done.
    2: { apply per_object_ready; [by apply filtered_stored|done]. }
    rewrite (prepared_files _ _ _ _ Hprep).
    destruct merge.
    + rewrite (write_merged_run _ _ _ _ _ d); cbn [fs environ stdout cwd dirs files].
      * rewrite <- !app_assoc. reflexivity.
      * by apply (resolve_dir_same_dirs f0).
      * by apply Hfree.
    + unfold write_merged, mret, M_ret. rewrite app_nil_r, <- app_assoc.
      reflexivity.
  - eapply Forall_impl; [exact Hall|]. intros o [[Hname Hdir]%writable_dest _].
    destruct (file_name_no_slash _ Hname) as [Hslash Hnz].
    unfold local_path.
    rewrite (open_wb_join _ _ _ Hslash Hnz).
    rewrite Hd, Hname. unfold negb. fold (dest d o). rewrite Hdir. by eexists.
  - intros l1 o1 l2 o2 l3 Hl Hsame Hlater.
    split; [unfold local_path; by rewrite Hsame|].
    replace (dest d o1) with (dest d o2) by (unfold dest; by rewrite Hsame).
    rewrite Hl.
    replace (l1 ++ o1 :: l2 ++ o2 :: l3) with ((l1 ++ o1 :: l2) ++ o2 :: l3)
      by (by rewrite <- app_assoc).
    by apply saved_last.
Qed.

(** C7, witness: [logs/a] and [old/a] both land on [out/a], which ends up
    holding the payload of [old/a]. *)
Lemma download_per_object_witness :
  ∃ w', download Sample.logs "" "production" "out" false false false
          Sample.start = (inr tt, w')
        ∧ local_path "out" (mk_object "logs/a" (Sample.payload "AAA") Healthy)
          = local_path "out" (mk_object "old/a" (Sample.payload "CCC") Healthy)
        ∧ files (fs w') !! ["home"; "out"; "a"] = Some (Sample.payload "CCC").
Proof.
  destruct (download_per_object Sample.logs "" "production" "out" false false
              false Sample.start Sample.home ["home"; "out"])
    as (Hrun & _ & Hclash).
  - by left.
  - unfold unique_keys. apply (bool_decide_unpack _). vm_compute. exact I.
  - reflexivity.
  - vm_compute. reflexivity.
  - repeat constructor.
  - discriminate.
  - eexists. split; [exact Hrun|]. split; [reflexivity|].
    vm_compute. reflexivity.
Defined.

(** ** [download]: failures *)

(** In merge mode the loop can only fail on a payload it cannot read. *)
Lemma loop_merged_error b t l : ∀ acc w e w',
  for_each l (download_object b t true true) acc w = (inl e, w') →
  e = ClientError ∧ Exists (λ o, transfer o ≠ Healthy) l.
Proof.
  induction l as [|o l IH]; intros acc w e w'; simpl; [done|].
  rewrite bind_run. unfold download_object, read, negb.
  destruct (transfer o) eqn:Hlink; rewrite bind_run; cbn [mret M_ret raise].
  - intros [-> Hex]%IH. split; [done|]. by apply Exists_cons_tl.
  - intros [= <- _]. split; [done|]. apply Exists_cons_hd. by rewrite Hlink.
Qed.

(** C8, counterexample.  With [raw] the payload is read before the file is
    opened: on a target that is not there, an object that cannot be read
    stops the run with the storage client's error, which is no file-system
    error. *)
Lemma missing_target_storage_error :
  Fs.resolve_dir (fs Sample.start) "nowhere" = inl FileNotFoundError
  ∧ objects_filter Sample.flaky "logs/b" ≠ []
  ∧ (download Sample.flaky "logs/b" "production" "nowhere" false true false
       Sample.start).1 = inl ClientError
  ∧ is_os_error ClientError = false.
Proof. repeat split; by vm_compute. Qed.

(** C8, amended.  Without [new_dir], when the target does not resolve to a
    directory and some object matches, the run raises and the file system is
    what it was: no file was written and no directory was created.  The
    exception is a file-system error whenever the payloads can be read, and
    always without [raw], where the file is opened before the storage is
    asked for anything; otherwise it is the storage client's error of a
    payload that cannot be read.  The file-system error is the one of the
    failed resolution (a [FileNotFoundError] for a missing directory) when
    the file that is opened has a name: the merged file, or an object whose
    key does not end in a slash. *)
Theorem download_missing_target b prefix profile target raw merge w e :
  Fs.resolve_dir (fs w) target = inl e →
  objects_filter b prefix ≠ [] →
  ∃ e' w',
    download b prefix profile target false raw merge w = (inl e', w')
    ∧ fs w' = fs w
    ∧ (is_os_error e' = true
       ∨ raw = true ∧ e' = ClientError
         ∧ Exists (λ o, transfer o ≠ Healthy) (objects_filter b prefix))
    ∧ (raw = false
       ∨ Forall (λ o, transfer o = Healthy) (objects_filter b prefix) →
       is_os_error e' = true
       ∧ (raw && merge = true
          ∨ Forall (λ o, OsPath.basename (key o) ≠ "")
              (objects_filter b prefix) →
          e' = e)).
Proof.
  intros He Hsome. rewrite download_run. unfold prepared.
  pose proof (walk_error _ _ _ _ He) as Hos.
  set (w1 := mk_world _ (fs w) _).
  destruct (objects_filter b prefix) as [|o l] eqn:Hl; [done|].
  assert (Hopen : ∀ n, Str.contains Str.slash n = false →
            ∃ e', open_wb (OsPath.join target n) w1 = (inl e', w1)
                  ∧ is_os_error e' = true ∧ (n ≠ "" → e' = e)).
  { intros n Hn.
    destruct (open_wb_unresolved (fs w1) target n e Hn He)
      as (e' & Ho & Hose & Heq).
    exists e'. unfold open_wb, fs_call. by rewrite Ho. }
  destruct raw; [destruct merge|].
  - destruct (for_each (o :: l) _ _ w1) as [[e0|acc] w2] eqn:Hloop.
    + exists e0, w2. apply loop_merged_world in Hloop as Hw. subst w2.
      apply loop_merged_error in Hloop as Herr. destruct Herr as [-> Hex].
      split; [done|]. split; [done|]. split; [by right|].
      intros [?|Hall]; [done|].
      by rewrite (loop_merged _ _ _ _ _ Hall) in Hloop.
    + apply loop_merged_world in Hloop as ->.
      exists e, w1. rewrite write_merged_cases.
      change (fs w1) with (fs w). rewrite He.
      split; [done|]. split; [done|]. split; [by left|]. by intros _.
  - simpl for_each. rewrite bind_run. unfold download_object, negb, read.
    destruct (transfer o) eqn:Hlink.
    + destruct (Hopen _ (basename_no_slash (key o))) as (e' & Ho & Hose & Heq).
      exists e', w1. unfold mbind, M_bind, mret, M_ret. rewrite Ho.
      split; [done|]. split; [done|]. split; [by left|].
      intros _. split; [done|].
      intros [?|Hnamed]; [done|].
      apply Forall_cons in Hnamed as [Hnamed _]. by apply Heq.
    + exists ClientError, w1. unfold mbind, M_bind, raise.
      split; [done|]. split; [done|]. split.
      * right. split; [done|]. split; [done|].
        apply Exists_cons_hd. by rewrite Hlink.
      * intros [?|Hall]; [done|].
        apply Forall_cons in Hall as [Hall _]. congruence.
  - simpl for_each. rewrite bind_run. unfold download_object, negb.
    destruct (Hopen _ (basename_no_slash (key o))) as (e' & Ho & Hose & Heq).
    exists e', w1. unfold mbind, M_bind. rewrite Ho.
    split; [done|]. split; [done|]. split; [by left|].
    intros _. split; [done|].
    intros [?|Hnamed]; [done|].
    apply Forall_cons in Hnamed as [Hnamed _]. by apply Heq.
Qed.

(** C8, witness: there is no directory [nowhere] in the sample home. *)
Lemma download_missing_target_witness :
  ∃ w', download Sample.logs "logs/" "production" "nowhere" false false false
          Sample.start = (inl FileNotFoundError, w')
        ∧ fs w' = Sample.home.
Proof.
  destruct (download_missing_target Sample.logs "logs/" "production" "nowhere"
              false false Sample.start FileNotFoundError)
    as (e' & w' & Hrun & Hfs & _ & He').
  - vm_compute. reflexivity.
  - discriminate.
  - exists w'. destruct (He' (or_introl eq_refl)) as [_ Heq].
    rewrite <- Heq; [by split|].
    right. repeat constructor; by vm_compute.
Defined.



(** ** [ls] *)

Lemma ls_loop (l : list s3_object) : ∀ w,
  for_each l (λ o _, print (key_line o)) tt w =
    (inr tt, mk_world (environ w) (fs w) (stdout w ++ map key_line l)).
Proof.
  induction l as [|o l IH]; intros w; simpl.
  - rewrite app_nil_r. by destruct w.
  - rewrite bind_run. unfold print at 1. rewrite IH.
    cbn [environ fs stdout]. by rewrite <- app_assoc.
Qed.

Lemma objects_filter_spec b prefix o :
  In o (objects_filter b prefix)
  ↔ In o (objects b) ∧ ∃ rest, key o = prefix +:+ rest.
Proof. unfold objects_filter. by rewrite filter_In, startswith_spec. Qed.

Lemma objects_filter_sublist b prefix :
  objects_filter b prefix `sublist_of` objects b.
Proof.
  unfold objects_filter. induction (objects b) as [|o l IH]; simpl; [done|].
  destruct (Str.startswith (key o) prefix); by constructor.
Qed.

(** C5, counterexample.  [ls] does more than print: on the sample bucket it
    leaves [AWS_PROFILE] set in the environment of the process, so the world
    after the run is not the world before it with lines added. *)
Lemma ls_changes_environment :
  ¬ ∃ lines,
      ls Sample.logs "logs/" "production" Sample.start =
        (inr tt,
         mk_world (environ Sample.start) (fs Sample.start)
           (stdout Sample.start ++ lines)).
Proof.
  intros [lines H].
  apply (f_equal (λ r : (exn + ()) * world, environ r.2 !! "AWS_PROFILE")) in H.
  vm_compute in H. discriminate H.
Qed.

(** C5, amended.  [ls] completes; it prints the banner naming the bucket,
    then one line per enumerated object whose key starts with the prefix, in
    the order of the enumeration, and nothing for the other objects.  Apart
    from the console it sets [AWS_PROFILE] in the environment of the process;
    the file system is untouched. *)
Theorem ls_lists_matching b prefix profile w :
  ls b prefix profile w =
    (inr tt,
     mk_world (<["AWS_PROFILE" := profile]> (environ w)) (fs w)
       (stdout w ++ ls_banner b :: map key_line (objects_filter b prefix)))
  ∧ (∀ o, In o (objects_filter b prefix)
          ↔ In o (objects b) ∧ ∃ rest, key o = prefix +:+ rest)
  ∧ objects_filter b prefix `sublist_of` objects b.
Proof.
  split; [|split].
  - unfold ls, set_profile, setenv, mbind, M_bind. unfold print at 1.
    change (λ (s3_object : s3_object) (_ : ()),
              print (Text (Color.FILE +:+ key s3_object +:+ Color.END)))
      with (λ (o : s3_object) (_ : ()), print (key_line o)).
    rewrite ls_loop. cbn [environ fs stdout]. rewrite <- app_assoc.
    reflexivity.
  - apply objects_filter_spec.
  - apply objects_filter_sublist.
Qed.

(** ** [dump] *)

Lemma decode_keeps_bytes payload s :
  Utf8.decode payload = Some s → list_byte_of_string s = payload.
Proof.
  unfold Utf8.decode. destruct (Utf8.valid _); [|done].
  intros [= <-]. apply list_byte_of_string_of_list_byte.
Qed.

Lemma is_text_inv o :
  is_text o → transfer o = Healthy ∧ Utf8.decode (body o) = Some (text_of o).
Proof.
  unfold is_text, read_error, text_of.
  destruct (transfer o); [|done]. by destruct (Utf8.decode (body o)).
Qed.

(** One text object. *)
Lemma dump_object_text parser keys o w :
  is_text o →
  dump_object parser keys true o tt w =
    (inr tt, mk_world (environ w) (fs w) (stdout w ++ text_lines o)).
Proof.
  intros [Hlink Hdec]%is_text_inv.
  unfold dump_object, read. rewrite Hlink.
  unfold mbind, M_bind, mret, M_ret, print, negb, decode. rewrite Hdec.
  unfold mret, M_ret. cbn [environ fs stdout]. by rewrite <- app_assoc.
Qed.

(** One object whose payload cannot be had: its key is printed, then the
    error escapes. *)
Lemma dump_object_unreadable parser keys text o w e :
  read_error o = Some e →
  dump_object parser keys text o tt w =
    (inl e, mk_world (environ w) (fs w) (stdout w ++ [key_line o])).
Proof.
  unfold read_error, dump_object, read.
  unfold mbind, M_bind, mret, M_ret, print, raise, decode.
  destruct (transfer o).
  - destruct (Utf8.decode (body o)); [done|]. by intros [= <-].
  - by intros [= <-].
Qed.

Lemma dump_loop_text parser keys (l : list s3_object) : ∀ w,
  Forall is_text l →
  for_each l (dump_object parser keys true) tt w =
    (inr tt,
     mk_world (environ w) (fs w) (stdout w ++ concat (map text_lines l))).
Proof.
  induction l as [|o l IH]; intros w Hall.
  - simpl. rewrite app_nil_r. by destruct w.
  - apply Forall_cons in Hall as [Ho Hall]. simpl for_each.
    rewrite bind_run, (dump_object_text _ _ _ _ Ho), (IH _ Hall).
    cbn [environ fs stdout map concat]. by rewrite <- !app_assoc.
Qed.

Lemma dump_run parser b prefix profile keys text w :
  dump parser b prefix profile keys text w =
    for_each (objects_filter b prefix) (dump_object parser keys text) tt
      (mk_world (<["AWS_PROFILE" := profile]> (environ w)) (fs w)
         (stdout w ++ [dump_banner b prefix])).
Proof. reflexivity. Qed.

(** C6.  With [text], every object whose payload arrives and is UTF-8 is
    printed as its key followed by the text of the payload, whose bytes are
    the payload; no use is made of the JSON parser, whatever it would say of
    the payload.  The first object whose payload cannot be had ends the run
    with its error, after its key and the lines of the objects before it. *)
Theorem dump_text parser b prefix profile keys w :
  (Forall is_text (objects_filter b prefix) →
   dump parser b prefix profile keys true w =
     (inr tt,
      mk_world (<["AWS_PROFILE" := profile]> (environ w)) (fs w)
        (stdout w ++ dump_banner b prefix
           :: concat (map text_lines (objects_filter b prefix)))))
  ∧ (∀ l1 o l2 e,
       objects_filter b prefix = l1 ++ o :: l2 →
       Forall is_text l1 → read_error o = Some e →
       dump parser b prefix profile keys true w =
         (inl e,
          mk_world (<["AWS_PROFILE" := profile]> (environ w)) (fs w)
            (stdout w ++ dump_banner b prefix
               :: concat (map text_lines l1) ++ [key_line o])))
  ∧ (∀ o, is_text o →
       Utf8.decode (body o) = Some (text_of o)
       ∧ list_byte_of_string (text_of o) = body o).
Proof.
  split; [|split].
  - intros Hall. rewrite dump_run, (dump_loop_text _ _ _ _ Hall).
    cbn [environ fs stdout]. rewrite <- app_assoc. reflexivity.
  - intros l1 o l2 e Hl Hall He.
    rewrite dump_run, Hl, for_each_app, (dump_loop_text _ _ _ _ Hall).
    simpl for_each. rewrite bind_run, (dump_object_unreadable _ _ _ _ _ e He).
    cbn [environ fs stdout]. rewrite <- !app_assoc. reflexivity.
  - intros o [_ Hdec]%is_text_inv. split; [done|].
    by apply decode_keeps_bytes.
Qed.

(** C6, witness: the parser rejects everything, the payloads are printed. *)
Lemma dump_text_witness :
  dump (λ _, None) Sample.logs "logs/" "production" None true Sample.start =
    (inr tt,
     mk_world {[ "AWS_PROFILE" := "production" ]} Sample.home
       [ dump_banner Sample.logs "logs/";
         Text (Color.FILE +:+ "logs/a" +:+ Color.END); Text "AAA";
         Text (Color.FILE +:+ "logs/b" +:+ Color.END); Text "BBB" ]).
Proof.
  apply (proj1 (dump_text (λ _, None) Sample.logs "logs/" "production" None
                  Sample.start)).
  repeat constructor.
Defined.

(** ** Projecting a record on the requested keys *)

Lemma dict_get_set_eq (d : Dict.t) k v : Dict.get (Dict.set d k v) k = Some v.
Proof.
  induction d as [|[k' v'] d IH]; simpl.
  - by rewrite String.eqb_refl.
  - destruct (String.eqb_spec k' k) as [->|Hne]; simpl.
    + by rewrite String.eqb_refl.
    + by destruct (String.eqb_spec k' k).
Qed.

Lemma dict_get_set_ne (d : Dict.t) k v k' :
  k ≠ k' → Dict.get (Dict.set d k v) k' = Dict.get d k'.
Proof.
  intros Hne. induction d as [|[k0 v0] d IH]; simpl.
  - by destruct (String.eqb_spec k k').
  - destruct (String.eqb_spec k0 k) as [->|Hk0]; simpl.
    + by destruct (String.eqb_spec k k').
    + by rewrite IH.
Qed.

Lemma dict_keys_set (d : Dict.t) k v k' :
  In k' (Dict.keys (Dict.set d k v)) ↔ In k' (Dict.keys d) ∨ k' = k.
Proof.
  unfold Dict.keys. induction d as [|[k0 v0] d IH]; simpl.
  - naive_solver.
  - destruct (String.eqb_spec k0 k) as [->|Hk0]; simpl; naive_solver.
Qed.

Lemma dict_keys_set_nodup (d : Dict.t) k v :
  NoDup (Dict.keys d) → NoDup (Dict.keys (Dict.set d k v)).
Proof.
  unfold Dict.keys. induction d as [|[k0 v0] d IH]; simpl.
  - intros _. apply NoDup_singleton.
  - intros [Hk0 Hd]%NoDup_cons.
    destruct (String.eqb_spec k0 k) as [->|Hne]; simpl.
    + by apply NoDup_cons.
    + apply NoDup_cons. split; [|by apply IH].
      rewrite list_elem_of_In. fold (Dict.keys (Dict.set d k v)).
      rewrite dict_keys_set. rewrite list_elem_of_In in Hk0. naive_solver.
Qed.

Lemma comprehension_dict d ks : ∀ acc,
  comprehension (JDict d) ks acc = inr (project d ks acc).
Proof. induction ks as [|k ks IH]; intros acc; simpl; [done|apply IH]. Qed.

Lemma project_keys d ks : ∀ acc k,
  In k (Dict.keys (project d ks acc)) ↔ In k (Dict.keys acc) ∨ In k ks.
Proof.
  induction ks as [|k0 ks IH]; intros acc k; simpl; [naive_solver|].
  rewrite IH, dict_keys_set. naive_solver.
Qed.

Lemma project_nodup d ks : ∀ acc,
  NoDup (Dict.keys acc) → NoDup (Dict.keys (project d ks acc)).
Proof.
  induction ks as [|k0 ks IH]; intros acc Hacc; simpl; [done|].
  by apply IH, dict_keys_set_nodup.
Qed.

Lemma project_get_other d ks : ∀ acc k,
  ¬ In k ks → Dict.get (project d ks acc) k = Dict.get acc k.
Proof.
  induction ks as [|k0 ks IH]; intros acc k Hout; simpl; [done|].
  simpl in Hout. rewrite IH by naive_solver.
  apply dict_get_set_ne. naive_solver.
Qed.

Lemma project_get d ks : ∀ acc k,
  In k ks → Dict.get (project d ks acc) k = Some (requested d k).
Proof.
  induction ks as [|k0 ks IH]; intros acc k; simpl; [done|].
  destruct (in_dec string_dec k ks) as [Hin|Hout]; [intros _; by apply IH|].
  intros [->|?]; [|done].
  rewrite project_get_other by done. apply dict_get_set_eq.
Qed.

(** ** [dump] of JSON records *)

Lemma display_dict_record keys d w :
  display_dict keys (JDict d) w = (inr (JDict (record_view keys d)), w).
Proof.
  unfold display_dict, record_view. destruct (truthy keys); [|done].
  by rewrite comprehension_dict.
Qed.

Lemma dump_rows keys (rows : list Dict.t) : ∀ w,
  for_each (map JDict rows) (dump_row keys) tt w =
    (inr tt,
     mk_world (environ w) (fs w)
       (stdout w ++ map (λ d, Value (JDict (record_view keys d))) rows)).
Proof.
  induction rows as [|d rows IH]; intros w; simpl.
  - rewrite app_nil_r. by destruct w.
  - rewrite bind_run. unfold dump_row at 1.
    rewrite bind_run, display_dict_record. unfold print at 1.
    rewrite IH. cbn [environ fs stdout]. by rewrite <- app_assoc.
Qed.

(** One object that holds records. *)
Lemma dump_object_records parser keys o rows w :
  holds_records parser o rows →
  dump_object parser keys false o tt w =
    (inr tt, mk_world (environ w) (fs w) (stdout w ++ record_lines keys o rows)).
Proof.
  intros [[Hlink Hdec]%is_text_inv Hrows].
  unfold dump_object, read. rewrite Hlink.
  unfold mbind at 1 2 3, M_bind, mret at 1, M_ret, print at 1, negb, decode.
  rewrite Hdec. unfold mret at 1, M_ret.
  rewrite bind_run. unfold loads. rewrite Hrows. unfold mret at 1, M_ret.
  rewrite bind_run. unfold rows_of, mret at 1, M_ret.
  rewrite dump_rows. cbn [environ fs stdout]. by rewrite <- app_assoc.
Qed.

Lemma dump_loop_records parser keys (recs : s3_object → list Dict.t)
    (l : list s3_object) : ∀ w,
  Forall (λ o, holds_records parser o (recs o)) l →
  for_each l (dump_object parser keys false) tt w =
    (inr tt,
     mk_world (environ w) (fs w)
       (stdout w ++ concat (map (λ o, record_lines keys o (recs o)) l))).
Proof.
  induction l as [|o l IH]; intros w Hall.
  - simpl. rewrite app_nil_r. by destruct w.
  - apply Forall_cons in Hall as [Ho Hall]. simpl for_each.
    rewrite bind_run, (dump_object_records _ _ _ _ _ Ho), (IH _ Hall).
    cbn [environ fs stdout map concat]. by rewrite <- !app_assoc.
Qed.

(** C4.  Without [text], when every payload arrives and parses as a list of
    records, [dump] prints for each object its key and one line per record.
    With requested keys the line is a dictionary whose keys are the
    requested ones, each once, with the value of the record, or [None] when
    the record has no such key; with no keys, or an empty list of them, the
    line is the record as it is. *)
Theorem dump_records parser b prefix profile keys w
    (recs : s3_object → list Dict.t) :
  (Forall (λ o, holds_records parser o (recs o)) (objects_filter b prefix) →
   dump parser b prefix profile keys false w =
     (inr tt,
      mk_world (<["AWS_PROFILE" := profile]> (environ w)) (fs w)
        (stdout w ++ dump_banner b prefix
           :: concat (map (λ o, record_lines keys o (recs o))
                          (objects_filter b prefix)))))
  ∧ (∀ d, keys = None ∨ keys = Some [] → record_view keys d = d)
  ∧ (∀ d ks, keys = Some ks → ks ≠ [] →
       NoDup (Dict.keys (record_view keys d))
       ∧ (∀ k, In k (Dict.keys (record_view keys d)) ↔ In k ks)
       ∧ (∀ k, In k ks →
            Dict.get (record_view keys d) k
            = Some (default JNone (Dict.get d k)))).
Proof.
  split; [|split].
  - intros Hall. rewrite dump_run, (dump_loop_records _ _ recs _ _ Hall).
    cbn [environ fs stdout]. rewrite <- app_assoc. reflexivity.
  - by intros d [-> | ->].
  - intros d ks -> Hks. unfold record_view.
    destruct ks as [|k0 ks]; [done|]. cbn [truthy default].
    split; [|split].
    + apply project_nodup. constructor.
    + intros k. rewrite project_keys. simpl. naive_solver.
    + intros k Hk. by apply project_get.
Qed.

(** C4, witness: the keys [a] and [b] of the record with [a], [b] and [c]. *)
Lemma dump_records_witness :
  dump Sample.parse Sample.records "" "production" (Some ["a"; "b"]) false
    Sample.start =
    (inr tt,
     mk_world {[ "AWS_PROFILE" := "production" ]} Sample.home
       [ dump_banner Sample.records "";
         Text (Color.FILE +:+ "r.json" +:+ Color.END);
         Value (JDict [("a", JInt 1); ("b", JInt 2)]) ]).
Proof.
  apply (proj1 (dump_records Sample.parse Sample.records "" "production"
                  (Some ["a"; "b"]) Sample.start
                  (λ _, [[("a", JInt 1); ("b", JInt 2); ("c", JInt 3)]]))).
  constructor; [|constructor]. split; reflexivity.
Defined.

(** ** Further properties of [download]: runs that complete *)

Lemma ready_loop b prefix target new_dir raw merge w f0 d :
  ready b prefix target new_dir raw merge w f0 d →
  raw = false ∨ merge = false →
  Forall (λ o, writable f0 (dest d o) ∧ transfer o = Healthy
               ∧ (raw = false → stored b (key o) = Some o))
         (objects_filter b prefix).
Proof.
  intros (_ & _ & Hb & Hlinks & Hnames & _) Hmode.
  specialize (Hnames Hmode). pose proof (filtered_stored b prefix Hb) as Hs.
  induction (objects_filter b prefix) as [|o l IH]; [constructor|].
  apply Forall_cons in Hlinks as [? ?]. apply Forall_cons in Hnames as [? ?].
  apply Forall_cons in Hs as [? ?]. constructor; [done|by apply IH].
Qed.

(** A run that nothing stops, in any of the four modes. *)
Lemma download_ready_run b prefix profile target new_dir raw merge w f0 d :
  ready b prefix target new_dir raw merge w f0 d →
  download b prefix profile target new_dir raw merge w =
    (inr tt,
     mk_world (<["AWS_PROFILE" := profile]> (environ w))
       (mk_fs (cwd f0) (dirs f0)
          (outcome_files b prefix raw merge d (files (fs w))))
       (stdout w ++ download_banner b prefix
          :: outcome_lines b prefix target raw merge)).
Proof.
  intros Hready.
  pose proof Hready as (Hprep & Hd & Hb & Hlinks & Hnames & Hfree).
  rewrite download_run, Hprep. unfold outcome_files, outcome_lines.
  destruct raw, merge; cbn [andb].
  - rewrite (loop_merged _ _ _ _ _ Hlinks).
    rewrite (write_merged_run _ _ _ _ _ d) by (by auto).
    cbn [fs environ stdout cwd dirs files].
    rewrite (prepared_files _ _ _ _ Hprep), <- app_assoc. reflexivity.
  - rewrite (loop_saved b target true false d); cbn [fs environ stdout];
      [|by right|done|by apply (ready_loop _ _ _ _ _ _ _ _ _ Hready); right].
    unfold write_merged, mret, M_ret.
    rewrite (prepared_files _ _ _ _ Hprep), app_nil_r, <- app_assoc.
    reflexivity.
  - rewrite (loop_saved b target false true d); cbn [fs environ stdout];
      [|by left|done|by apply (ready_loop _ _ _ _ _ _ _ _ _ Hready); left].
    rewrite (write_merged_run _ _ _ _ _ d); cbn [fs environ stdout cwd dirs files].
    + rewrite (prepared_files _ _ _ _ Hprep), <- !app_assoc. reflexivity.
    + by apply (resolve_dir_same_dirs f0).
    + by apply Hfree.
  - rewrite (loop_saved b target false false d); cbn [fs environ stdout];
      [|by left|done|by apply (ready_loop _ _ _ _ _ _ _ _ _ Hready); left].
    unfold write_merged, mret, M_ret.
    rewrite (prepared_files _ _ _ _ Hprep), app_nil_r, <- app_assoc.
    reflexivity.
Qed.

(** What [saved] leaves at a path depends on the files before it only when
    no object of the list lands on the path. *)
Lemma saved_agree d l (p : list string) :
  ∀ X Y : gmap (list string) (list byte),
    (Forall (λ o, dest d o ≠ p) l → X !! p = Y !! p) →
    saved d l X !! p = saved d l Y !! p.
Proof.
  induction l as [|o l IH]; intros X Y Hout; simpl.
  - apply Hout. constructor.
  - apply IH. intros Hl. destruct (decide (dest d o = p)) as [->|Hne].
    + by rewrite !lookup_insert_eq.
    + rewrite !lookup_insert_ne by done. apply Hout. by constructor.
Qed.

Lemma saved_twice (d : Fs.loc) (l : list s3_object)
    (m : gmap (list string) (list byte)) :
  saved d l (saved d l m) = saved d l m.
Proof.
  apply map_eq. intros p. apply saved_agree. intros Hout.
  by apply saved_other.
Qed.

Lemma outcome_files_twice (b : bucket) (prefix : string) (raw merge : bool)
    (d : Fs.loc) (m : gmap (list string) (list byte)) :
  outcome_files b prefix raw merge d (outcome_files b prefix raw merge d m)
  = outcome_files b prefix raw merge d m.
Proof.
  unfold outcome_files. destruct raw, merge; cbn [andb].
  - apply insert_insert_eq.
  - apply saved_twice.
  - set (l := objects_filter b prefix). set (q := d ++ [_]).
    apply map_eq. intros p. destruct (decide (q = p)) as [->|Hne].
    + by rewrite !lookup_insert_eq.
    + rewrite !lookup_insert_ne by done. apply saved_agree. intros Hout.
      rewrite lookup_insert_ne by done. by apply saved_other.
  - apply saved_twice.
Qed.

(** [makedirs] of a path that resolves changes nothing. *)
Lemma walk_make_all f cs : ∀ cur d,
  Fs.walk f cur cs = inr d → Fs.make_all f cur cs = inr (d, f).
Proof.
  induction cs as [|c cs IH]; intros cur d; simpl.
  - by intros [= <-].
  - unfold Fs.enter, Fs.make.
    destruct (Fs.stays c); [apply IH|].
    destruct (c =? "..")%string; [apply IH|].
    destruct (Fs.is_dir f (cur ++ [c])); [apply IH|].
    by destruct (Fs.is_file f (cur ++ [c])).
Qed.

Lemma makedirs_existing f t d :
  t ≠ "" → Fs.resolve_dir f t = inr d → Fs.makedirs f t = inr f.
Proof.
  intros Ht Hd. unfold Fs.makedirs.
  destruct (String.eqb_spec t ""); [done|].
  unfold Fs.resolve_dir in Hd. by rewrite (walk_make_all _ _ _ _ Hd).
Qed.

Lemma makedirs_nonempty f t f' : Fs.makedirs f t = inr f' → t ≠ "".
Proof. intros H ->. done. Qed.

Lemma ready_again b prefix profile target new_dir raw merge w f0 d :
  ready b prefix target new_dir raw merge w f0 d →
  ready b prefix target new_dir raw merge
    (download b prefix profile target new_dir raw merge w).2
    (fs (download b prefix profile target new_dir raw merge w).2) d.
Proof.
  intros Hready. rewrite (download_ready_run _ _ _ _ _ _ _ _ _ _ Hready).
  destruct Hready as (Hprep & Hd & Hb & Hlinks & Hnames & Hfree).
  unfold ready. cbn [snd fs].
  set (f1 := mk_fs (cwd f0) (dirs f0) _).
  assert (Hd1 : Fs.resolve_dir f1 target = inr d)
    by (by apply (resolve_dir_same_dirs f0)).
  repeat split; try done.
  unfold prepared in *. destruct new_dir; [|done].
  apply makedirs_nonempty in Hprep. by rewrite (makedirs_existing f1 target d).
Qed.

Ltac prove_ready :=
  unfold ready, unique_keys;
  repeat match goal with
         | |- _ ∧ _ => split
         | |- _ → _ => intros _
         | |- NoDup _ => apply (bool_decide_unpack _); vm_compute; exact I
         | |- Forall _ _ => repeat constructor
         | |- _ = _ => vm_compute; reflexivity
         end.

(** X1.  When nothing stops the run, [raw] without [merge] leaves what the
    plain download leaves: the same files with the same bytes, the same
    lines. *)
Theorem raw_flag_without_merge b prefix profile target new_dir w f0 d :
  ready b prefix target new_dir true false w f0 d →
  download b prefix profile target new_dir true false w =
    download b prefix profile target new_dir false false w.
Proof.
  intros Hraw.
  assert (Hplain : ready b prefix target new_dir false false w f0 d).
  { destruct Hraw as (? & ? & ? & ? & Hnames & ?).
    repeat split; try done. intros _. apply Hnames. by right. }
  rewrite (download_ready_run _ _ _ _ _ _ _ _ _ _ Hraw).
  by rewrite (download_ready_run _ _ _ _ _ _ _ _ _ _ Hplain).
Qed.

Lemma raw_flag_without_merge_witness :
  download Sample.logs "" "production" "out" false true false Sample.start =
    download Sample.logs "" "production" "out" false false false Sample.start.
Proof.
  apply (raw_flag_without_merge Sample.logs "" "production" "out" false
           Sample.start Sample.home ["home"; "out"]).
  prove_ready.
Defined.

(** X2.  A run that nothing stops can be repeated: the second run completes
    too and leaves the file system and the environment of the first. *)
Theorem download_rerun b prefix profile target new_dir raw merge w f0 d :
  ready b prefix target new_dir raw merge w f0 d →
  ∃ w' w'',
    download b prefix profile target new_dir raw merge w = (inr tt, w')
    ∧ download b prefix profile target new_dir raw merge w' = (inr tt, w'')
    ∧ fs w'' = fs w' ∧ environ w'' = environ w'.
Proof.
  intros Hready.
  pose proof (ready_again _ _ profile _ _ _ _ _ _ _ Hready) as Hagain.
  rewrite (download_ready_run _ _ profile _ _ _ _ _ _ _ Hready) in *.
  cbn [snd fs] in Hagain.
  eexists _, _. split; [reflexivity|].
  split; [apply (download_ready_run _ _ _ _ _ _ _ _ _ _ Hagain)|].
  cbn [fs environ cwd dirs files]. split.
  - by rewrite outcome_files_twice.
  - apply insert_insert_eq.
Qed.

Lemma download_rerun_witness :
  ∃ w' w'',
    download Sample.logs "logs/" "production" "out" false false true
      Sample.start = (inr tt, w')
    ∧ download Sample.logs "logs/" "production" "out" false false true w'
      = (inr tt, w'')
    ∧ fs w'' = fs w' ∧ environ w'' = environ w'.
Proof.
  apply (download_rerun Sample.logs "logs/" "production" "out" false false true
           Sample.start Sample.home ["home"; "out"]).
  prove_ready.
Defined.

(** X3.  With [new_dir], a target that is a directory already is left as it
    is, and the run is the run without [new_dir]. *)
Theorem new_dir_on_existing_target b prefix profile target raw merge w d :
  target ≠ "" →
  Fs.resolve_dir (fs w) target = inr d →
  download b prefix profile target true raw merge w =
    download b prefix profile target false raw merge w.
Proof.
  intros Ht Hd. rewrite !download_run. unfold prepared.
  by rewrite (makedirs_existing _ _ _ Ht Hd).
Qed.

Lemma new_dir_on_existing_target_witness :
  download Sample.logs "logs/" "production" "out" true true true Sample.start =
    download Sample.logs "logs/" "production" "out" false true true Sample.start.
Proof.
  apply (new_dir_on_existing_target Sample.logs "logs/" "production" "out"
           true true Sample.start ["home"; "out"]).
  - discriminate.
  - vm_compute. reflexivity.
Defined.

(** ** Further properties of [download]: payloads that do not arrive *)

(** X4.  With [raw] and without [merge] the payload is read before the file
    is opened: when the read of an object fails, the run stops with the error
    of the storage client and the destination of that object is not opened.
    It holds what the objects before it left there, so what it held before
    the run when none of them ends in the same segment. *)
Theorem raw_read_failure b prefix profile target new_dir w f0 d l1 o l2 n :
  prepared new_dir target (fs w) = inr f0 →
  Fs.resolve_dir f0 target = inr d →
  objects_filter b prefix = l1 ++ o :: l2 →
  Forall (λ o', writable f0 (dest d o') ∧ transfer o' = Healthy) l1 →
  transfer o = Broken n →
  download b prefix profile target new_dir true false w =
    (inl ClientError,
     mk_world (<["AWS_PROFILE" := profile]> (environ w))
       (mk_fs (cwd f0) (dirs f0) (saved d l1 (files (fs w))))
       (stdout w ++ download_banner b prefix :: map (downloaded_line target) l1))
  ∧ (Forall (λ o', OsPath.basename (key o') ≠ OsPath.basename (key o)) l1 →
     saved d l1 (files (fs w)) !! dest d o = files (fs w) !! dest d o).
Proof.
  intros Hprep Hd Hl Hall Hlink. split.
  - rewrite download_run, Hprep, Hl, for_each_app.
    rewrite (loop_saved b target true false d); cbn [fs environ stdout];
      [|by right|done|].
    2: { eapply Forall_impl; [exact Hall|]. by intros o' [? ?]. }
    simpl for_each. rewrite bind_run.
    unfold download_object, negb, read. rewrite Hlink.
    unfold mbind, M_bind, raise.
    rewrite (prepared_files _ _ _ _ Hprep), <- app_assoc. reflexivity.
  - intros Hother. apply saved_other.
    eapply Forall_impl; [exact Hother|]. intros o' Hne Heq. apply Hne.
    unfold dest in Heq. by apply app_inv_head in Heq as [= ->].
Qed.

Lemma raw_read_failure_witness :
  ∃ w', download Sample.flaky "logs/" "production" "out" false true false
          Sample.restart = (inl ClientError, w')
        ∧ files (fs w') !! ["home"; "out"; "b"]
          = Some (Sample.payload "old bytes").
Proof.
  eexists. split.
  - apply (proj1 (raw_read_failure Sample.flaky "logs/" "production" "out"
             false Sample.restart Sample.used_home ["home"; "out"]
             [mk_object "logs/a" (Sample.payload "AAA") Healthy]
             (mk_object "logs/b" (Sample.payload "BBB") (Broken 1)) [] 1
             eq_refl eq_refl eq_refl
             ltac:(repeat constructor) eq_refl)).
  - vm_compute. reflexivity.
Defined.

(** X5.  With [raw] and [merge] nothing is written before every payload was
    read: when the read of an object fails, the run stops with the error of
    the storage client, the merged file is not written and no file changed,
    whether the target is a directory or not. *)
Theorem merge_read_failure b prefix profile target new_dir w f0 l1 o l2 n :
  prepared new_dir target (fs w) = inr f0 →
  objects_filter b prefix = l1 ++ o :: l2 →
  Forall (λ o', transfer o' = Healthy) l1 →
  transfer o = Broken n →
  download b prefix profile target new_dir true true w =
    (inl ClientError,
     mk_world (<["AWS_PROFILE" := profile]> (environ w)) f0
       (stdout w ++ [download_banner b prefix]))
  ∧ files f0 = files (fs w).
Proof.
  intros Hprep Hl Hall Hlink. split; [|by apply (prepared_files new_dir target)].
  rewrite download_run, Hprep, Hl, for_each_app, (loop_merged _ _ _ _ _ Hall).
  simpl for_each. rewrite bind_run.
  unfold download_object, negb, read. rewrite Hlink. reflexivity.
Qed.

Lemma merge_read_failure_witness :
  download Sample.flaky "logs/" "production" "out" false true true
    Sample.restart =
    (inl ClientError,
     mk_world {[ "AWS_PROFILE" := "production" ]} Sample.used_home
       [download_banner Sample.flaky "logs/"]).
Proof.
  apply (proj1 (merge_read_failure Sample.flaky "logs/" "production" "out"
           false Sample.restart Sample.used_home
           [mk_object "logs/a" (Sample.payload "AAA") Healthy]
           (mk_object "logs/b" (Sample.payload "BBB") (Broken 1)) [] 1
           eq_refl eq_refl ltac:(repeat constructor) eq_refl)).
Defined.

(** ** Further properties of [download]: names *)

(** X6.  The name of the merged file does not tell a slash from two
    underscores, nor where the bucket name ends: prefixes that differ only
    there, and a bucket and prefix cut at another double underscore, give
    the same file. *)
Theorem merged_file_name_clash (b : bucket) (p q : string) :
  merged_file_name b (p +:+ "/" +:+ q) = merged_file_name b (p +:+ "__" +:+ q)
  ∧ ∀ objects1 objects2,
      merged_file_name (mk_bucket (name b +:+ "__" +:+ p) objects1) q
      = merged_file_name (mk_bucket (name b) objects2) (p +:+ "__" +:+ q).
Proof.
  split.
  - rewrite !merged_file_name_append. do 2 f_equal.
    rewrite !replace_append. reflexivity.
  - intros objects1 objects2. unfold merged_file_name. cbn [name].
    by rewrite !append_assoc.
Qed.

Lemma endswith_contains s c : Str.endswith s c = true → Str.contains c s = true.
Proof.
  induction s as [|a s IH]; [done|]. destruct s as [|a' s].
  - simpl. by intros ->.
  - intros H. change (Str.contains c (String a (String a' s)))
      with (Ascii.eqb a c || Str.contains c (String a' s)).
    rewrite (IH H). apply orb_true_r.
Qed.

(** The key of a folder placeholder has no last segment. *)
Lemma basename_trailing_slash p :
  Str.endswith p Str.slash = true → OsPath.basename p = "".
Proof.
  induction p as [|a r IH]; [done|]. rewrite basename_cons.
  destruct r as [|a' r].
  - simpl. by intros ->.
  - intros H. change (Str.endswith (String a' r) Str.slash = true) in H.
    by rewrite (endswith_contains _ _ H), (IH H).
Qed.

Lemma open_wb_marker t w d :
  Fs.resolve_dir (fs w) t = inr d →
  open_wb (OsPath.join t "") w = (inl (marker_error t), w).
Proof.
  intros Hd. unfold open_wb, fs_call, marker_error.
  destruct (String.eqb_spec t "") as [->|Ht]; [done|].
  destruct (open_wb_trailing (fs w) t Ht) as (e & -> & _ & He).
  by rewrite (He d Hd).
Qed.

Lemma download_object_marker b t raw merge o acc w d :
  OsPath.basename (key o) = "" →
  Fs.resolve_dir (fs w) t = inr d →
  raw = false ∨ merge = false ∧ transfer o = Healthy →
  download_object b t raw merge o acc w = (inl (marker_error t), w).
Proof.
  intros Hbase Hd Hmode. unfold download_object. rewrite Hbase.
  destruct Hmode as [->|[-> Hlink]].
  - unfold negb. by rewrite bind_run, (open_wb_marker _ _ _ Hd).
  - destruct raw; unfold negb.
    + unfold read. rewrite Hlink, bind_run. cbn [mret M_ret].
      by rewrite bind_run, (open_wb_marker _ _ _ Hd).
    + by rewrite bind_run, (open_wb_marker _ _ _ Hd).
Qed.

(** X7.  An object whose key ends with a slash, as the placeholder of a
    folder does, has an empty last segment, and no file can be opened for it:
    in the modes that write one file per object the run stops there with the
    error of [open] ([IsADirectoryError], or [FileNotFoundError] when the
    target is the empty path).  The objects before it are saved, the ones
    after it are not. *)
Theorem folder_marker_stops_download b prefix profile target new_dir raw merge
    w f0 d l1 o l2 :
  unique_keys b →
  prepared new_dir target (fs w) = inr f0 →
  Fs.resolve_dir f0 target = inr d →
  objects_filter b prefix = l1 ++ o :: l2 →
  Forall (λ o', writable f0 (dest d o') ∧ transfer o' = Healthy) l1 →
  Str.endswith (key o) Str.slash = true →
  raw = false ∨ merge = false ∧ transfer o = Healthy →
  download b prefix profile target new_dir raw merge w =
    (inl (marker_error target),
     mk_world (<["AWS_PROFILE" := profile]> (environ w))
       (mk_fs (cwd f0) (dirs f0) (saved d l1 (files (fs w))))
       (stdout w ++ download_banner b prefix :: map (downloaded_line target) l1)).
Proof.
  intros Hb Hprep Hd Hl Hall Hkey Hmode.
  pose proof (filtered_stored b prefix Hb) as Hstored.
  rewrite Hl in Hstored. apply Forall_app in Hstored as [Hs1 _].
  rewrite download_run, Hprep, Hl, for_each_app.
  rewrite (loop_saved b target raw merge d); cbn [fs environ stdout].
  - simpl for_each. rewrite bind_run.
    rewrite (download_object_marker b target raw merge o [] _ d);
      cbn [fs]; [| by apply basename_trailing_slash
                 | by apply (resolve_dir_same_dirs f0) | done].
    rewrite (prepared_files _ _ _ _ Hprep), <- app_assoc. reflexivity.
  - destruct Hmode as [?|[? _]]; [by left|by right].
  - done.
  - by apply per_object_ready.
Qed.

Lemma folder_marker_stops_download_witness :
  ∃ w', download Cases.with_folder "logs/" "production" "out"
          false false false Sample.start = (inl IsADirectoryError, w')
        ∧ map_to_list (files (fs w'))
          = [(["home"; "out"; "a"], Sample.payload "AAA")].
Proof.
  eexists. split.
  - apply (folder_marker_stops_download Cases.with_folder "logs/" "production"
             "out" false false false Sample.start Sample.home ["home"; "out"]
             [mk_object "logs/a" (Sample.payload "AAA") Healthy]
             (mk_object "logs/" [] Healthy)
             [mk_object "logs/b" (Sample.payload "BBB") Healthy]).
    + unfold unique_keys. apply (bool_decide_unpack _). vm_compute. exact I.
    + reflexivity.
    + vm_compute. reflexivity.
    + reflexivity.
    + repeat constructor.
    + reflexivity.
    + by left.
  - vm_compute. reflexivity.
Defined.

(** ** Further properties of [download]: what a run can touch *)

Lemma touched_under_refl d f : touched_under d f f.
Proof. repeat split; done. Qed.

Lemma touched_under_trans d f1 f2 f3 :
  touched_under d f1 f2 → touched_under d f2 f3 → touched_under d f1 f3.
Proof.
  intros (Hc1 & Hd1 & Hk1 & Hn1) (Hc2 & Hd2 & Hk2 & Hn2).
  repeat split; [congruence|congruence|by auto|].
  intros l Hl.
  destruct (decide (files f2 !! l = files f1 !! l)) as [Heq|Hne].
  - apply Hn2. by rewrite Heq.
  - by apply Hn1.
Qed.

Lemma touched_under_insert d n f x :
  Fs.file_name n = true →
  touched_under d f (mk_fs (cwd f) (dirs f) (<[d ++ [n] := x]> (files f))).
Proof.
  intros Hn. repeat split; cbn [cwd dirs files].
  - intros l Hl. destruct (decide (d ++ [n] = l)) as [<-|Hne].
    + by rewrite lookup_insert_eq.
    + by rewrite lookup_insert_ne.
  - intros l Hl. exists n. split; [|done].
    destruct (decide (d ++ [n] = l)) as [<-|Hne]; [done|].
    by rewrite lookup_insert_ne in Hl.
Qed.

Lemma reach_refl t w : reach t w w.
Proof.
  repeat split; [by exists []; rewrite app_nil_r|].
  destruct (Fs.resolve_dir (fs w) t); [done|apply touched_under_refl].
Qed.

Lemma reach_trans t w1 w2 w3 : reach t w1 w2 → reach t w2 w3 → reach t w1 w3.
Proof.
  intros (He1 & [m1 Ho1] & Hf1) (He2 & [m2 Ho2] & Hf2).
  split; [congruence|]. split.
  - exists (m1 ++ m2). by rewrite Ho2, Ho1, <- app_assoc.
  - destruct (Fs.resolve_dir (fs w1) t) as [e|d] eqn:Hd.
    + rewrite Hf1, Hd in Hf2. congruence.
    + destruct Hf1 as (Hc & Hds & ?).
      rewrite (resolve_dir_same_dirs (fs w1) (fs w2) t d Hc Hds Hd) in Hf2.
      eapply touched_under_trans; [|exact Hf2]. done.
Qed.

Lemma reach_print t w x : reach t w (print x w).2.
Proof.
  repeat split; [by exists [x]|]. cbn [print snd fs].
  destruct (Fs.resolve_dir (fs w) t); [done|apply touched_under_refl].
Qed.

(** A file written directly in the target, and lines printed. *)
Lemma reach_insert t w d n x more :
  Fs.resolve_dir (fs w) t = inr d →
  Fs.file_name n = true →
  reach t w
    (mk_world (environ w)
       (mk_fs (cwd (fs w)) (dirs (fs w)) (<[d ++ [n] := x]> (files (fs w))))
       (stdout w ++ more)).
Proof.
  intros Hd Hn. repeat split; [by exists more|].
  rewrite Hd. by apply touched_under_insert.
Qed.

(** What [open] of a path in the target can do. *)
Lemma open_wb_shape f t n :
  Str.contains Str.slash n = false →
  match Fs.open_wb f (OsPath.join t n) with
  | inl _ => True
  | inr (h, f') =>
      ∃ d, Fs.resolve_dir f t = inr d ∧ Fs.file_name n = true
         ∧ h = d ++ [n]
         ∧ f' = mk_fs (cwd f) (dirs f) (<[d ++ [n] := []]> (files f))
  end.
Proof.
  intros Hn. destruct (decide (n = "")) as [->|Hnz].
  - destruct (String.eqb_spec t "") as [->|Ht]; [done|].
    by destruct (open_wb_trailing f t Ht) as (e & -> & _).
  - rewrite (open_wb_join _ _ _ Hn Hnz).
    destruct (Fs.resolve_dir f t) as [e|d]; [done|].
    destruct (Fs.file_name n); [|done]. unfold negb.
    destruct (Fs.is_dir f (d ++ [n])); [done|]. by exists d.
Qed.

Lemma download_object_reach b t raw merge o acc w :
  reach t w (download_object b t raw merge o acc w).2.
Proof.
  pose proof (open_wb_shape (fs w) t _ (basename_no_slash (key o))) as Hshape.
  unfold download_object, open_wb, fs_call, mbind, M_bind.
  destruct raw; unfold negb.
  - unfold read. destruct (transfer o); [|apply reach_refl].
    cbn [mret M_ret]. destruct merge; [apply reach_refl|].
    destruct (Fs.open_wb (fs w) _) as [e|[h f']]; [apply reach_refl|].
    destruct Hshape as (d & Hd & Hname & -> & ->).
    unfold write, fs_call, print, mret, M_ret. cbn [fs environ stdout snd].
    rewrite write_after_open. by apply reach_insert.
  - destruct (Fs.open_wb (fs w) _) as [e|[h f']]; [apply reach_refl|].
    destruct Hshape as (d & Hd & Hname & -> & ->).
    unfold download_fileobj.
    destruct (stored b (key o)) as [o'|].
    + destruct (transfer o').
      * unfold write, fs_call, print, mret, M_ret.
        cbn [fs environ stdout snd].
        rewrite write_after_open. by apply reach_insert.
      * unfold write, fs_call, raise, mbind, M_bind.
        cbn [fs environ stdout snd]. rewrite write_after_open.
        rewrite <- (app_nil_r (stdout w)). by apply reach_insert.
    + unfold raise. cbn [snd].
      rewrite <- (app_nil_r (stdout w)). by apply reach_insert.
Qed.

Lemma loop_reach b t raw merge l : ∀ acc w,
  reach t w (for_each l (download_object b t raw merge) acc w).2.
Proof.
  induction l as [|o l IH]; intros acc w; simpl; [apply reach_refl|].
  rewrite bind_run.
  pose proof (download_object_reach b t raw merge o acc w) as Hone.
  destruct (download_object b t raw merge o acc w) as [[e|acc'] w1]; [done|].
  eapply reach_trans; [exact Hone|apply IH].
Qed.

Lemma write_merged_reach b prefix t merge data w :
  reach t w (write_merged b prefix t merge data w).2.
Proof.
  destruct merge; [|apply reach_refl]. rewrite write_merged_cases.
  destruct (Fs.resolve_dir (fs w) t) as [e|d] eqn:Hd; [apply reach_refl|].
  destruct (Fs.is_dir (fs w) _); [apply reach_refl|].
  apply reach_insert; [done|apply merged_file_name_ok].
Qed.

(** The loop and the statements after it. *)
Lemma download_reach b prefix profile t new_dir raw merge w f0 :
  prepared new_dir t (fs w) = inr f0 →
  reach t
    (mk_world (<["AWS_PROFILE" := profile]> (environ w)) f0
       (stdout w ++ [download_banner b prefix]))
    (download b prefix profile t new_dir raw merge w).2.
Proof.
  intros Hprep. rewrite download_run, Hprep.
  set (w1 := mk_world _ f0 _).
  pose proof (loop_reach b t raw merge (objects_filter b prefix) [] w1) as Hloop.
  destruct (for_each _ _ _ w1) as [[e|acc] w2]; [done|].
  eapply reach_trans; [exact Hloop|apply write_merged_reach].
Qed.

(** What the directory step leaves when it succeeds. *)
Lemma prepared_spec new_dir t f f0 :
  prepared new_dir t f = inr f0 →
  cwd f0 = cwd f ∧ files f0 = files f ∧ dirs f ⊆ dirs f0
  ∧ (new_dir = false → f0 = f).
Proof.
  unfold prepared. destruct new_dir.
  - intros (_ & ? & ? & ?)%makedirs_resolves. done.
  - by intros [= <-].
Qed.

(** X8.  Whatever the bucket holds and however the run ends, also when the
    directories cannot all be made, [download] sets the profile and keeps
    the lines printed before; it stays in its current directory, removes no
    directory, and makes one only with [new_dir]; no file goes away; and a
    file that is created or whose content changes is a regular file directly
    in the target directory, whatever the keys look like.  So when the target
    is no directory at the end, no file changed at all. *)
Theorem download_confined b prefix profile target new_dir raw merge w :
  let w' := (download b prefix profile target new_dir raw merge w).2 in
  environ w' = <["AWS_PROFILE" := profile]> (environ w)
  ∧ (∃ more, stdout w' = stdout w ++ more)
  ∧ cwd (fs w') = cwd (fs w)
  ∧ dirs (fs w) ⊆ dirs (fs w')
  ∧ (new_dir = false → dirs (fs w') = dirs (fs w))
  ∧ (∀ l, is_Some (files (fs w) !! l) → is_Some (files (fs w') !! l))
  ∧ (∀ l, files (fs w') !! l ≠ files (fs w) !! l →
          ∃ d n, Fs.resolve_dir (fs w') target = inr d
                 ∧ l = d ++ [n] ∧ Fs.file_name n = true).
Proof.
  intros w'. subst w'.
  destruct (prepared new_dir target (fs w)) as [[e f1]|f0] eqn:Hprep.
  - rewrite download_run, Hprep. cbn [snd environ stdout fs].
    unfold prepared in Hprep. destruct new_dir; [|done].
    apply makedirs_failed in Hprep as (Hsub & Hcwd & Hfiles & _).
    split; [done|]. split; [by eexists|]. split; [done|]. split; [done|].
    split; [done|]. rewrite Hfiles. by split.
  - destruct (download_reach b prefix profile target new_dir raw merge w f0 Hprep)
      as (Henv & [more Hout] & Hfs).
    destruct (prepared_spec _ _ _ _ Hprep) as (Hcwd & Hfiles & Hsub & Hsame).
    cbn [environ stdout fs] in Henv, Hout, Hfs.
    split; [exact Henv|]. split.
    { exists (download_banner b prefix :: more).
      rewrite Hout. by rewrite <- app_assoc. }
    destruct (Fs.resolve_dir f0 target) as [e|d] eqn:Hd.
    + rewrite Hfs, Hfiles. split; [done|]. split; [done|].
      split; [by intros ->%Hsame|]. by split.
    + destruct Hfs as (Hc & Hds & Hkeep & Hnew).
      split; [congruence|]. split; [by rewrite Hds|].
      split; [by intros ->%Hsame|].
      rewrite <- Hfiles. split; [done|].
      intros l [n [-> Hn]]%Hnew. exists d, n. split; [|done].
      by apply (resolve_dir_same_dirs f0).
Qed.

(** X9.  With [new_dir], once the directories are made the target is a
    directory, and stays one to the end of the run, however it ends; the
    directories that were there are still there, and making them touched no
    file. *)
Theorem new_dir_makes_target b prefix profile target raw merge w f0 :
  Fs.makedirs (fs w) target = inr f0 →
  (∃ d, Fs.resolve_dir
          (fs (download b prefix profile target true raw merge w).2) target
        = inr d)
  ∧ dirs (fs w) ⊆ dirs (fs (download b prefix profile target true raw merge w).2)
  ∧ files f0 = files (fs w).
Proof.
  intros Hmk.
  destruct (makedirs_resolves _ _ _ Hmk) as ([d Hd] & Hcwd & Hfiles & Hsub).
  destruct (download_reach b prefix profile target true raw merge w f0 Hmk)
    as (_ & _ & Hfs).
  cbn [fs] in Hfs. rewrite Hd in Hfs. destruct Hfs as (Hc & Hds & _).
  split; [|split; [by rewrite Hds|done]].
  exists d. by apply (resolve_dir_same_dirs f0).
Qed.

Lemma new_dir_makes_target_witness :
  ∃ d, Fs.resolve_dir
         (fs (download Sample.logs "logs/" "production" "new/deep" true
                false false Sample.start).2) "new/deep" = inr d.
Proof.
  apply (new_dir_makes_target Sample.logs "logs/" "production" "new/deep"
           false false Sample.start
           (mk_fs ["home"]
              ({[ ["home"; "new"; "deep"] ]}
               ∪ ({[ ["home"; "new"] ]} ∪ {[ ["home"]; ["home"; "out"] ]}))
              ∅)).
  vm_compute. reflexivity.
Defined.

(** ** Further properties of [dump] *)

Lemma console_only_refl w : console_only w w.
Proof. repeat split. exists []. by rewrite app_nil_r. Qed.

Lemma console_only_trans w1 w2 w3 :
  console_only w1 w2 → console_only w2 w3 → console_only w1 w3.
Proof.
  intros (He1 & Hf1 & [m1 Ho1]) (He2 & Hf2 & [m2 Ho2]).
  repeat split; [congruence|congruence|].
  exists (m1 ++ m2). by rewrite Ho2, Ho1, <- app_assoc.
Qed.

Lemma quiet_bind {A B : Type} (c : M A) (k : A → M B) :
  (∀ w, console_only w (c w).2) → (∀ a w, console_only w (k a w).2) →
  ∀ w, console_only w ((c ≫= k) w).2.
Proof.
  intros Hc Hk w. rewrite bind_run. specialize (Hc w).
  destruct (c w) as [[e|a] w1]; [done|].
  eapply console_only_trans; [exact Hc|apply Hk].
Qed.

Lemma quiet_for_each {A S : Type} (body : A → S → M S) :
  (∀ x s w, console_only w (body x s w).2) →
  ∀ l s w, console_only w (for_each l body s w).2.
Proof.
  intros Hbody l. induction l as [|x l IH]; intros s w; simpl.
  - apply console_only_refl.
  - apply quiet_bind; [apply Hbody|]. intros s' w'. apply IH.
Qed.

Lemma quiet_print x w : console_only w (print x w).2.
Proof. repeat split. by exists [x]. Qed.

Lemma quiet_value {A : Type} (r : exn + A) w :
  console_only w ((match r with inl e => raise e | inr a => mret a end) w).2.
Proof. destruct r; apply console_only_refl. Qed.

Lemma dump_row_quiet keys row u w : console_only w (dump_row keys row u w).2.
Proof.
  unfold dump_row. apply quiet_bind; [|intros; apply quiet_print].
  intros w'. unfold display_dict.
  destruct (truthy keys); [|apply console_only_refl].
  destruct (comprehension _ _ _); apply console_only_refl.
Qed.

Lemma dump_object_quiet parser keys text o u w :
  console_only w (dump_object parser keys text o u w).2.
Proof.
  unfold dump_object.
  apply quiet_bind; [intros; apply quiet_print|]. intros _ w1.
  apply quiet_bind.
  { intros w2. unfold read. destruct (transfer o); apply console_only_refl. }
  intros payload w2. apply quiet_bind.
  { intros w3. unfold decode.
    destruct (Utf8.decode payload); apply console_only_refl. }
  intros content w3. destruct (negb text); [|apply quiet_print].
  apply quiet_bind.
  { intros w4. unfold loads.
    destruct (parser content); apply console_only_refl. }
  intros v w4. apply quiet_bind.
  { intros w5. unfold rows_of. destruct v; apply console_only_refl. }
  intros rows w5. apply quiet_for_each. intros row s w6.
  apply dump_row_quiet.
Qed.

(** X10.  Whatever the payloads are, whatever the parser says and however
    the run ends, [dump] only prints: it sets the profile, keeps the lines
    printed before, adds its own after them, and leaves every file and
    directory as it was. *)
Theorem dump_console_only parser b prefix profile keys text w :
  ∃ more,
    (dump parser b prefix profile keys text w).2 =
      mk_world (<["AWS_PROFILE" := profile]> (environ w)) (fs w)
        (stdout w ++ more).
Proof.
  rewrite dump_run. set (w1 := mk_world _ (fs w) _).
  destruct (quiet_for_each (dump_object parser keys text)
              (dump_object_quiet parser keys text)
              (objects_filter b prefix) tt w1) as (Henv & Hfs & [more Hout]).
  exists (dump_banner b prefix :: more).
  destruct (for_each _ _ _ w1) as [r [env' f' out']].
  cbn [snd environ fs stdout] in *. subst env' f' out'.
  subst w1. cbn [environ fs stdout]. rewrite <- app_assoc. reflexivity.
Qed.

(** X11.  With [text] neither the requested keys nor the parser matter: two
    runs that differ only in them are the same run. *)
Theorem dump_text_ignores_keys parser parser' b prefix profile keys keys' w :
  dump parser b prefix profile keys true w =
    dump parser' b prefix profile keys' true w.
Proof.
  rewrite !dump_run.
  change (dump_object parser keys true) with (dump_object parser' keys' true).
  reflexivity.
Qed.

Lemma dump_object_json_error parser keys o w e :
  is_text o → json_error parser o = Some e →
  dump_object parser keys false o tt w =
    (inl e, mk_world (environ w) (fs w) (stdout w ++ [key_line o])).
Proof.
  intros [Hlink Hdec]%is_text_inv. unfold json_error, dump_object, read.
  rewrite Hlink.
  unfold mbind at 1 2 3, M_bind, mret at 1, M_ret, print at 1, negb, decode.
  rewrite Hdec. unfold mret at 1, M_ret. rewrite bind_run. unfold loads.
  destruct (parser (text_of o)) as [v|]; [|by intros [= <-]].
  unfold mret at 1, M_ret. rewrite bind_run.
  destruct v; simpl; try done; by intros [= <-].
Qed.

(** X12.  Without [text], a payload that is text but does not parse stops the
    run with [JSONDecodeError], and one that parses to a value that is no
    list, dict or string stops it with [TypeError]; the key of the object is
    printed, after the lines of the objects before it. *)
Theorem dump_json_error parser b prefix profile keys w
    (recs : s3_object → list Dict.t) l1 o l2 e :
  objects_filter b prefix = l1 ++ o :: l2 →
  Forall (λ o', holds_records parser o' (recs o')) l1 →
  is_text o →
  json_error parser o = Some e →
  dump parser b prefix profile keys false w =
    (inl e,
     mk_world (<["AWS_PROFILE" := profile]> (environ w)) (fs w)
       (stdout w ++ dump_banner b prefix
          :: concat (map (λ o', record_lines keys o' (recs o')) l1)
          ++ [key_line o])).
Proof.
  intros Hl Hall Htext He.
  rewrite dump_run, Hl, for_each_app, (dump_loop_records _ _ recs _ _ Hall).
  simpl for_each.
  rewrite bind_run, (dump_object_json_error _ _ _ _ e Htext He).
  cbn [environ fs stdout]. rewrite <- !app_assoc. reflexivity.
Qed.

Lemma dump_json_error_witness :
  dump Cases.parse Cases.number "" "production" None false Sample.start =
    (inl TypeError,
     mk_world {[ "AWS_PROFILE" := "production" ]} Sample.home
       [ dump_banner Cases.number "";
         Text (Color.FILE +:+ "n.json" +:+ Color.END) ]).
Proof.
  apply (dump_json_error Cases.parse Cases.number "" "production" None
           Sample.start (λ _, []) []
           (mk_object "n.json" (Sample.payload Cases.number_text) Healthy) []
           TypeError eq_refl ltac:(constructor) eq_refl eq_refl).
Defined.

Lemma display_dict_not_dict keys v w :
  truthy keys = true → is_dict v = false →
  display_dict keys v w = (inl AttributeError, w).
Proof.
  unfold display_dict. intros Hkeys Hv.
  destruct keys as [[|k ks]|]; try done. by destruct v.
Qed.

(** X13.  With requested keys every row must be a dict: the first row that is
    not one stops the run with [AttributeError], after the key of the object
    and the lines of the rows before it. *)
Theorem dump_row_not_dict parser b prefix profile keys w
    (recs : s3_object → list Dict.t) l1 o l2 rows v rest :
  truthy keys = true →
  objects_filter b prefix = l1 ++ o :: l2 →
  Forall (λ o', holds_records parser o' (recs o')) l1 →
  parses_to parser o (JList (map JDict rows ++ v :: rest)) →
  is_dict v = false →
  dump parser b prefix profile keys false w =
    (inl AttributeError,
     mk_world (<["AWS_PROFILE" := profile]> (environ w)) (fs w)
       (stdout w ++ dump_banner b prefix
          :: concat (map (λ o', record_lines keys o' (recs o')) l1)
          ++ record_lines keys o rows)).
Proof.
  intros Hkeys Hl Hall [[Hlink Hdec]%is_text_inv Hparse] Hv.
  rewrite dump_run, Hl, for_each_app, (dump_loop_records _ _ recs _ _ Hall).
  simpl for_each. rewrite bind_run.
  unfold dump_object at 1, read. rewrite Hlink.
  unfold mbind at 1 2 3, M_bind, mret at 1, M_ret, print at 1, negb, decode.
  rewrite Hdec. unfold mret at 1, M_ret. rewrite bind_run. unfold loads.
  rewrite Hparse. unfold mret at 1, M_ret. rewrite bind_run.
  unfold rows_of, mret at 1, M_ret.
  rewrite for_each_app, dump_rows. simpl for_each. rewrite bind_run.
  unfold dump_row at 1. rewrite bind_run, (display_dict_not_dict _ _ _ Hkeys Hv).
  cbn [environ fs stdout]. unfold record_lines. rewrite <- !app_assoc.
  reflexivity.
Qed.

Lemma dump_row_not_dict_witness :
  dump Cases.parse Cases.ragged "" "production" (Some ["a"]) false
    Sample.start =
    (inl AttributeError,
     mk_world {[ "AWS_PROFILE" := "production" ]} Sample.home
       [ dump_banner Cases.ragged "";
         Text (Color.FILE +:+ "g.json" +:+ Color.END);
         Value (JDict [("a", JNone)]) ]).
Proof.
  apply (dump_row_not_dict Cases.parse Cases.ragged "" "production"
           (Some ["a"]) Sample.start (λ _, []) []
           (mk_object "g.json" (Sample.payload Cases.ragged_text) Healthy) []
           [[]] (JInt 7) []
           eq_refl eq_refl ltac:(constructor)
           ltac:(split; reflexivity) eq_refl).
Defined.

Lemma dump_rows_plain keys (items : list json) : ∀ w,
  truthy keys = false →
  for_each items (dump_row keys) tt w =
    (inr tt, mk_world (environ w) (fs w) (stdout w ++ map Value items)).
Proof.
  induction items as [|v items IH]; intros w Hkeys; simpl.
  - rewrite app_nil_r. by destruct w.
  - rewrite bind_run. unfold dump_row at 1, display_dict. rewrite Hkeys.
    rewrite bind_run. cbn [mret M_ret]. unfold print at 1.
    rewrite IH by done. cbn [environ fs stdout]. by rewrite <- app_assoc.
Qed.

Lemma dump_object_items parser keys o v w :
  truthy keys = false → parses_to parser o v → iterable v = true →
  dump_object parser keys false o tt w =
    (inr tt, mk_world (environ w) (fs w) (stdout w ++ item_lines o v)).
Proof.
  intros Hkeys [[Hlink Hdec]%is_text_inv Hparse] Hv.
  unfold dump_object, read. rewrite Hlink.
  unfold mbind at 1 2 3, M_bind, mret at 1, M_ret, print at 1, negb, decode.
  rewrite Hdec. unfold mret at 1, M_ret. rewrite bind_run. unfold loads.
  rewrite Hparse. unfold mret at 1, M_ret. rewrite bind_run.
  assert (Hrows : ∀ w', rows_of v w' = (inr (items_of v), w'))
    by (by destruct v).
  rewrite Hrows, dump_rows_plain by done.
  cbn [environ fs stdout]. unfold item_lines. by rewrite <- app_assoc.
Qed.

Lemma code_points_cons c r :
  code_points (String c r) =
    match code_points r with
    | g :: gs =>
        if continues r then String c g :: gs else String c "" :: g :: gs
    | [] => [String c ""]
    end.
Proof. reflexivity. Qed.

(** The characters of a text, put together again, are the text. *)
Lemma code_points_concat s : String.concat "" (code_points s) = s.
Proof.
  induction s as [|c r IH]; [done|]. rewrite code_points_cons.
  destruct (code_points r) as [|g gs].
  - simpl in IH. by rewrite <- IH.
  - destruct (continues r).
    + destruct gs as [|g' gs]; [simpl in *; by rewrite IH|].
      change (String.concat "" (String c g :: g' :: gs))
        with (String c g +:+ "" +:+ String.concat "" (g' :: gs)).
      change (String.concat "" (g :: g' :: gs))
        with (g +:+ "" +:+ String.concat "" (g' :: gs)) in IH.
      by rewrite append_cons, IH.
    + change (String.concat "" (String c "" :: g :: gs))
        with (String c "" +:+ "" +:+ String.concat "" (g :: gs)).
      by rewrite IH, append_cons, !append_nil.
Qed.

(** Each of them starts where the text starts or at a byte that is no
    continuation byte, and goes on with continuation bytes. *)
Lemma code_points_shape s :
  match code_points s with
  | [] => s = ""
  | g :: gs =>
      (∃ a t t', s = String a t' ∧ g = String a t
                 ∧ forallb (λ x, Utf8.cont (N_of_ascii x))
                     (list_ascii_of_string t) = true)
      ∧ Forall (λ c, one_code_point c = true) gs
  end.
Proof.
  induction s as [|c r IH]; [done|]. rewrite code_points_cons.
  destruct (code_points r) as [|g gs].
  - split; [|done]. by exists c, "", r.
  - destruct IH as [(a & t & t' & -> & -> & Ht) Hgs].
    cbn [continues]. destruct (Utf8.cont (N_of_ascii a)) eqn:Ha.
    + split; [|done]. exists c, (String a t), (String a t').
      split; [done|]. split; [done|].
      cbn [list_ascii_of_string forallb]. by rewrite Ha, Ht.
    + split; [by exists c, "", (String a t')|].
      apply Forall_cons. split; [|done].
      cbn [one_code_point]. by rewrite Ha, Ht.
Qed.

Lemma code_points_whole s :
  continues s = false → Forall (λ c, one_code_point c = true) (code_points s).
Proof.
  intros Hs. pose proof (code_points_shape s) as Hshape.
  destruct (code_points s) as [|g gs]; [done|].
  destruct Hshape as [(a & t & t' & -> & -> & Ht) Hgs].
  apply Forall_cons. split; [|done].
  cbn [continues] in Hs. cbn [one_code_point]. by rewrite Hs, Ht.
Qed.

(** X14.  Without [text] and with no keys requested, the rows are printed
    as they are, whatever they are: the items of a list, records or not, the
    keys of a dict, the characters of a string, one line each after the key
    of the object.  The characters of a string are its code points, not its
    bytes: put together again they are the string, and each is one byte that
    is no continuation byte followed by its continuation bytes. *)
Theorem dump_items parser b prefix profile keys w (vals : s3_object → json) :
  truthy keys = false →
  Forall (λ o, parses_to parser o (vals o) ∧ iterable (vals o) = true)
         (objects_filter b prefix) →
  dump parser b prefix profile keys false w =
    (inr tt,
     mk_world (<["AWS_PROFILE" := profile]> (environ w)) (fs w)
       (stdout w ++ dump_banner b prefix
          :: concat (map (λ o, item_lines o (vals o))
                         (objects_filter b prefix))))
  ∧ ∀ s, items_of (JStr s) = map JStr (code_points s)
         ∧ String.concat "" (code_points s) = s
         ∧ (continues s = false →
            Forall (λ c, one_code_point c = true) (code_points s)).
Proof.
  intros Hkeys Hall. split.
  2: { intros s. split; [done|].
       split; [apply code_points_concat|apply code_points_whole]. }
  rewrite dump_run.
  set (w1 := mk_world _ (fs w) _).
  assert (Hloop : ∀ l w',
            Forall (λ o, parses_to parser o (vals o) ∧ iterable (vals o) = true) l →
            for_each l (dump_object parser keys false) tt w' =
              (inr tt,
               mk_world (environ w') (fs w')
                 (stdout w' ++ concat (map (λ o, item_lines o (vals o)) l)))).
  { induction l as [|o l IH]; intros w' Hl.
    - simpl. rewrite app_nil_r. by destruct w'.
    - apply Forall_cons in Hl as [[Ho Hi] Hl]. simpl for_each.
      rewrite bind_run, (dump_object_items _ _ _ _ _ Hkeys Ho Hi), (IH _ Hl).
      cbn [environ fs stdout map concat]. by rewrite <- !app_assoc. }
  rewrite (Hloop _ _ Hall). subst w1. cbn [environ fs stdout].
  rewrite <- app_assoc. reflexivity.
Qed.

(** X14, witness: a JSON string of two characters, three bytes long, is
    printed as two rows. *)
Lemma dump_items_witness :
  dump Cases.parse_word Cases.word "" "production" None false Sample.start =
    (inr tt,
     mk_world {[ "AWS_PROFILE" := "production" ]} Sample.home
       [ dump_banner Cases.word "";
         Text (Color.FILE +:+ "w.json" +:+ Color.END);
         Value (JStr Cases.e_acute); Value (JStr "a") ])
  ∧ String.length (Cases.e_acute +:+ "a") = 3.
Proof.
  split; [|reflexivity].
  apply (dump_items Cases.parse_word Cases.word "" "production" None
           Sample.start (λ _, JStr (Cases.e_acute +:+ "a")) eq_refl).
  repeat constructor.
Defined.

(** A list whose items are no records is printed one item per row. *)
Example dump_mixed_items :
  dump Cases.parse Cases.mixed "" "production" None false Sample.start =
    (inr tt,
     mk_world {[ "AWS_PROFILE" := "production" ]} Sample.home
       [ dump_banner Cases.mixed "";
         Text (Color.FILE +:+ "m.json" +:+ Color.END);
         Value (JInt 1); Value JNone ]).
Proof. by vm_compute. Qed.

(** ** Further properties of the enumeration *)

Lemma filter_sublist {A : Type} (f : A → bool) (l : list A) :
  List.filter f l `sublist_of` l.
Proof.
  induction l as [|x l IH]; simpl; [done|]. destruct (f x); by constructor.
Qed.

Lemma startswith_shorter s p q :
  Str.startswith s (p +:+ q) = true → Str.startswith s p = true.
Proof.
  rewrite !startswith_spec. intros [rest ->]. exists (q +:+ rest).
  apply append_assoc.
Qed.

(** X15.  The three commands enumerate with the same filter.  The empty
    prefix keeps every object of the bucket; a longer prefix keeps, in the
    same order, those objects of the shorter one whose key starts with it, so
    what a command lists, prints or downloads for it is part of what it does
    for the shorter one. *)
Theorem prefix_filter_narrows b p q :
  objects_filter b "" = objects b
  ∧ objects_filter b (p +:+ q)
    = List.filter (λ o, Str.startswith (key o) (p +:+ q)) (objects_filter b p)
  ∧ objects_filter b (p +:+ q) `sublist_of` objects_filter b p.
Proof.
  assert (Hcompose :
            objects_filter b (p +:+ q)
            = List.filter (λ o, Str.startswith (key o) (p +:+ q))
                (objects_filter b p)).
  { unfold objects_filter. induction (objects b) as [|o l IH]; simpl; [done|].
    destruct (Str.startswith (key o) (p +:+ q)) eqn:Hlong.
    - rewrite (startswith_shorter _ _ _ Hlong). simpl. by rewrite Hlong, IH.
    - destruct (Str.startswith (key o) p); simpl; [by rewrite Hlong|done]. }
  split; [|split; [exact Hcompose|]].
  - unfold objects_filter. induction (objects b) as [|o l IH]; [done|].
    simpl in *. by f_equal.
  - rewrite Hcompose. apply filter_sublist.
Qed.
